(** * Calm Journal (streamlit_app.py): a shallow embedding and its properties

    The program is a single Streamlit script.  Its pure helpers
    ([normalize_tags]), its CSV store ([initialize_csv], [save_entry],
    [load_entries]), its transcription helper ([transcribe_audio]) and the
    controller ([main]) are embedded below, followed by the statements
    proved about them.

    Conventions.
    - A Python [str] is a list of Unicode code points ([pystr]); literals of
      the source are written [lit "..."] and decoded from UTF-8.
    - Calls into the outside world (the speech service, pydub, the temp
      directory, the clock) take their outcome from an explicit environment
      record; the files they touch are explicit state.
    - A computation that can raise returns a [result]. *)

From Stdlib Require Import List String Ascii ZArith NArith Lia Bool.
From Stdlib Require Import DecimalString.
From stdpp Require Import gmap strings.
Import ListNotations.

Local Open Scope N_scope.

(* ===================================================================== *)
(** ** Python strings *)
(* ===================================================================== *)

Module Py.

(** A character is its code point; a string is the list of its characters. *)
Abbreviation char := N (only parsing).
Abbreviation pystr := (list N) (only parsing).

(** Decoding of the UTF-8 bytes of a source literal into code points. *)
Fixpoint utf8_decode (bs : list N) : pystr :=
  match bs with
  | [] => []
  | b :: r =>
    if b <? 128 then b :: utf8_decode r
    else if b <? 224 then
      match r with
      | b1 :: r' => ((b - 192) * 64 + (b1 - 128)) :: utf8_decode r'
      | _ => []
      end
    else if b <? 240 then
      match r with
      | b1 :: b2 :: r' =>
        ((b - 224) * 4096 + (b1 - 128) * 64 + (b2 - 128)) :: utf8_decode r'
      | _ => []
      end
    else
      match r with
      | b1 :: b2 :: b3 :: r' =>
        ((b - 240) * 262144 + (b1 - 128) * 4096 + (b2 - 128) * 64 + (b3 - 128))
          :: utf8_decode r'
      | _ => []
      end
  end.

Definition lit (s : string) : pystr :=
  utf8_decode (List.map N_of_ascii (list_ascii_of_string s)).

Definition chr (a : ascii) : char := N_of_ascii a.

Definition COMMA : char := Eval cbv in chr ",".
Definition HASH : char := Eval cbv in chr "#".
Definition SPACE : char := Eval cbv in chr " ".
Definition DQUOTE : char := 34.
Definition LBRACKET : char := Eval cbv in chr "[".
Definition DOT : char := Eval cbv in chr ".".
Definition SLASH : char := Eval cbv in chr "/".
Definition LF : char := 10.
Definition CR : char := 13.

(** Truthiness of a [str]: the empty string is false. *)
Definition truthy (s : pystr) : bool :=
  match s with [] => false | _ => true end.

(** [str.isspace] on one code point (CPython's [_PyUnicode_IsWhitespace]). *)
Definition is_space (c : char) : bool :=
  ((9 <=? c) && (c <=? 13)) || ((28 <=? c) && (c <=? 32))
  || (c =? 133) || (c =? 160) || (c =? 5760)
  || ((8192 <=? c) && (c <=? 8202))
  || (c =? 8232) || (c =? 8233) || (c =? 8239) || (c =? 8287) || (c =? 12288).

Fixpoint lstrip (s : pystr) : pystr :=
  match s with
  | [] => []
  | c :: r => if is_space c then lstrip r else s
  end.

Definition rstrip (s : pystr) : pystr := rev' (lstrip (rev' s)).

(** [s.strip()]: whitespace removed at both ends. *)
Definition strip (s : pystr) : pystr := rstrip (lstrip s).

(** [s.split(sep)] for a one-character separator: always at least one
    token, empty tokens kept. *)
Fixpoint split (sep : char) (s : pystr) : list pystr :=
  match s with
  | [] => [[]]
  | c :: r =>
    if c =? sep then [] :: split sep r
    else match split sep r with
         | t :: ts => (c :: t) :: ts
         | [] => [[c]]
         end
  end.

(** [sep.join(parts)]. *)
Fixpoint join (sep : pystr) (parts : list pystr) : pystr :=
  match parts with
  | [] => []
  | [p] => p
  | p :: ps => p ++ sep ++ join sep ps
  end.

(** [s.startswith(prefix)]. *)
Fixpoint startswith (prefix s : pystr) : bool :=
  match prefix, s with
  | [], _ => true
  | _ :: _, [] => false
  | a :: p, b :: r => (a =? b) && startswith p r
  end.

(** [s.lower()] on the ASCII letters; other code points are left as they
    are (no non-ASCII code point lowers to one of ".wav", the only string
    a lowered value is compared with). *)
Definition lower_char (c : char) : char :=
  if (65 <=? c) && (c <=? 90) then c + 32 else c.

Definition lower (s : pystr) : pystr := List.map lower_char s.

(** [str(n)] for an [int]. *)
Definition str_of_int (n : Z) : pystr :=
  lit (NilZero.string_of_int (Z.to_int n)).

End Py.
Import Py.

(* ===================================================================== *)
(** ** Tag normalizer *)
(* ===================================================================== *)

(** [normalize_tags(tags_str)]; the argument is [None] for Python's [None]. *)
Definition normalize_tags (tags_str : option pystr) : pystr :=
  match tags_str with
  | None => []
  | Some [] => []
  | Some s =>
    let parts :=
      List.map strip (List.filter (fun t => truthy (strip t)) (split COMMA s)) in
    let normalized :=
      fold_left
        (fun normalized p =>
           let p := if negb (startswith [HASH] p) then HASH :: p else p in
           normalized ++ [p])
        parts [] in
    join (lit ", ") normalized
  end.

(** The contract of the tag normalizer in the words of its description:
    split on commas, trim each token, drop the empty ones, prefix the
    marker where it is missing, rejoin with ", ". *)
Definition add_marker (p : pystr) : pystr :=
  if startswith [HASH] p then p else HASH :: p.

Definition normalize_contract (s : pystr) : pystr :=
  join (lit ", ")
    (List.map add_marker
       (List.filter truthy (List.map strip (split COMMA s)))).

(* ===================================================================== *)
(** ** Exceptions and results *)
(* ===================================================================== *)

(** The exceptions the program can meet.  [KeyboardInterrupt] stands for the
    [BaseException]s that [except Exception] does not catch;
    [RerunException] is the control-flow exception of [st.rerun()];
    [StreamlitInvalidMinMaxError] is what a slider raises when its bounds
    leave no range. *)
Inductive exn :=
| NameError (name : string)
| AttributeError (name : string)
| TypeError
| ImportError
| OSError
| csv_Error (msg : string)
| UnknownValueError
| RequestError
| Exception (msg : pystr)
| StreamlitInvalidMinMaxError
| KeyboardInterrupt
| RerunException.

(** [isinstance(e, Exception)]. *)
Definition is_Exception (e : exn) : bool :=
  match e with
  | KeyboardInterrupt | RerunException => false
  | _ => true
  end.

Inductive result (A : Type) :=
| Ok (a : A)
| Raise (e : exn).
Arguments Ok {A} a.
Arguments Raise {A} e.

Definition rbind {A B} (r : result A) (k : A -> result B) : result B :=
  match r with
  | Ok a => k a
  | Raise e => Raise e
  end.

Declare Scope result_scope.
Delimit Scope result_scope with result.
Notation "'do' x <- r ; k" := (rbind r (fun x => k))
  (at level 10, x name, r at level 100, k at level 200) : result_scope.

(* ===================================================================== *)
(** ** The csv module, excel dialect *)
(* ===================================================================== *)

(** [csv.writer(file).writerow] and [list(csv.reader(file))] as the program
    uses them: default (excel) dialect, that is delimiter comma, the
    double quote as quote character, [doublequote] on, no escape character, line terminator
    CR LF, [QUOTE_MINIMAL], not [strict]; files opened with [newline=''],
    so no newline translation takes place in either direction.  The reader
    follows the state machine of CPython's [_csv.c]; the states that need
    an escape character are left out. *)
Module Csv.

Local Open Scope result_scope.

Abbreviation row := (list (list N)) (only parsing).

(** *** Writer *)

Definition needs_quote (c : char) : bool :=
  (c =? COMMA) || (c =? DQUOTE) || (c =? CR) || (c =? LF).

Fixpoint double_quotes (f : pystr) : pystr :=
  match f with
  | [] => []
  | c :: r =>
    if c =? DQUOTE then DQUOTE :: DQUOTE :: double_quotes r
    else c :: double_quotes r
  end.

(** One field as [join_append] writes it. *)
Definition write_field (f : pystr) : pystr :=
  if existsb needs_quote f then DQUOTE :: double_quotes f ++ [DQUOTE] else f.

Definition lineterminator : pystr := [CR; LF].

(** [writerow(row)]: the text appended to the file.  A row made of one
    empty field is written as a pair of quotes. *)
Definition writerow (r : row) : pystr :=
  match r with
  | [[]] => [DQUOTE; DQUOTE] ++ lineterminator
  | _ => join [COMMA] (List.map write_field r) ++ lineterminator
  end.

(** *** Reader *)

Inductive ParserState :=
| START_RECORD | START_FIELD | IN_FIELD
| IN_QUOTED_FIELD | QUOTE_IN_QUOTED_FIELD | EAT_CRNL.

(** [csv.field_size_limit()], never changed by the program. *)
Definition field_limit : N := 131072.

(** The reader object.  [field] and [fields] grow at the front: the
    current field and the current record are kept last element first. *)
Record Reader := mkReader {
  state : ParserState;
  field : pystr;
  field_len : N;
  fields : list pystr
}.

Definition set_state (self : Reader) (s : ParserState) : Reader :=
  mkReader s (field self) (field_len self) (fields self).

Definition parse_reset : Reader := mkReader START_RECORD [] 0 [].

Definition parse_save_field (self : Reader) : Reader :=
  mkReader (state self) [] 0 (rev' (field self) :: fields self).

Definition parse_add_char (self : Reader) (c : char) : result Reader :=
  if field_limit <=? field_len self then
    Raise (csv_Error "field larger than field limit (131072)")
  else
    Ok (mkReader (state self) (c :: field self) (field_len self + 1) (fields self)).

Definition is_newline (c : char) : bool := (c =? LF) || (c =? CR).

(** The [START_FIELD] case, which [START_RECORD] falls through to. *)
Definition process_start_field (self : Reader) (c : option char) : result Reader :=
  match c with
  | None => Ok (set_state (parse_save_field self) START_RECORD)
  | Some ch =>
    if is_newline ch then Ok (set_state (parse_save_field self) EAT_CRNL)
    else if ch =? DQUOTE then Ok (set_state self IN_QUOTED_FIELD)
    else if ch =? COMMA then Ok (parse_save_field self)
    else do self' <- parse_add_char self ch; Ok (set_state self' IN_FIELD)
  end.

(** [parse_process_char]; the end of a line is [None]. *)
Definition parse_process_char (self : Reader) (c : option char) : result Reader :=
  match state self with
  | START_RECORD =>
    match c with
    | None => Ok self
    | Some ch =>
      if is_newline ch then Ok (set_state self EAT_CRNL)
      else process_start_field (set_state self START_FIELD) c
    end
  | START_FIELD => process_start_field self c
  | IN_FIELD =>
    match c with
    | None => Ok (set_state (parse_save_field self) START_RECORD)
    | Some ch =>
      if is_newline ch then Ok (set_state (parse_save_field self) EAT_CRNL)
      else if ch =? COMMA then Ok (set_state (parse_save_field self) START_FIELD)
      else parse_add_char self ch
    end
  | IN_QUOTED_FIELD =>
    match c with
    | None => Ok self
    | Some ch =>
      if ch =? DQUOTE then Ok (set_state self QUOTE_IN_QUOTED_FIELD)
      else parse_add_char self ch
    end
  | QUOTE_IN_QUOTED_FIELD =>
    match c with
    | None => Ok (set_state (parse_save_field self) START_RECORD)
    | Some ch =>
      if ch =? DQUOTE then
        do self' <- parse_add_char self ch; Ok (set_state self' IN_QUOTED_FIELD)
      else if ch =? COMMA then Ok (set_state (parse_save_field self) START_FIELD)
      else if is_newline ch then Ok (set_state (parse_save_field self) EAT_CRNL)
      else do self' <- parse_add_char self ch; Ok (set_state self' IN_FIELD)
    end
  | EAT_CRNL =>
    match c with
    | None => Ok (set_state self START_RECORD)
    | Some ch =>
      if is_newline ch then Ok self
      else Raise (csv_Error "new-line character seen in unquoted field")
    end
  end.

(** The lines a text file opened with [newline=''] yields: a line ends
    after LF, after CR LF, or after a CR that no LF follows; the line ends
    are kept. *)
Fixpoint readlines (s : pystr) : list pystr :=
  match s with
  | [] => []
  | c :: r =>
    if c =? LF then [c] :: readlines r
    else if c =? CR then
      match r with
      | c' :: r' =>
        if c' =? LF then [c; c'] :: readlines r' else [c] :: readlines r
      | [] => [[c]]
      end
    else
      match readlines r with
      | l :: ls => (c :: l) :: ls
      | [] => [[c]]
      end
  end.

(** One line through the parser, then the end-of-line signal. *)
Fixpoint feed_line (self : Reader) (line : pystr) : result Reader :=
  match line with
  | [] => parse_process_char self None
  | c :: r => do self' <- parse_process_char self (Some c); feed_line self' r
  end.

Definition pending (self : Reader) : bool :=
  negb (field_len self =? 0)
  || match state self with IN_QUOTED_FIELD => true | _ => false end.

(** [list(reader)]: [Reader_iternext] called until the lines run out.  A
    record is complete when a line leaves the parser in [START_RECORD];
    at the end of the input an unfinished field still closes a record. *)
Fixpoint read_records (self : Reader) (lines : list pystr) : result (list row) :=
  match lines with
  | [] =>
    if pending self then Ok [rev' (fields (parse_save_field self))] else Ok []
  | l :: ls =>
    do self' <- feed_line self l;
    match state self' with
    | START_RECORD =>
      do rest <- read_records parse_reset ls; Ok (rev' (fields self') :: rest)
    | _ => read_records self' ls
    end
  end.

Definition reader (content : pystr) : result (list row) :=
  read_records parse_reset (readlines content).

End Csv.

(* ===================================================================== *)
(** ** The world the script runs in *)
(* ===================================================================== *)

Abbreviation bytes := (list Byte.byte) (only parsing).

(** Values kept in [st.session_state]. *)
Inductive pyval :=
| VNone
| VBool (b : bool)
| VBytes (data : bytes).

Definition truthy_val (v : pyval) : bool :=
  match v with
  | VNone => false
  | VBool b => b
  | VBytes [] => false
  | VBytes _ => true
  end.

(** What a run puts on the page, in order.  Only the calls whose text or
    presence depends on the run are recorded. *)
Inductive ui_event :=
| Info (msg : pystr)
| Warning (msg : pystr)
| Success (msg : pystr)
| Spinner (msg : pystr)
| SidebarCard (ts mood tags notes : pystr)
| SidebarInfo (msg : pystr).

(** [session_state] is Streamlit's per-session dictionary; [csv_file] is
    the content of [CSV_FILE], [None] while the file does not exist;
    [tmp_files] is the set of paths that exist in the temp directory. *)
Record World := mkWorld {
  session_state : gmap string pyval;
  csv_file : option pystr;
  tmp_files : gset pystr;
  screen : list ui_event
}.

(** State and exceptions: a computation maps a world to its outcome and the
    world it leaves, whether it returns or raises. *)
Definition M (A : Type) : Type := World -> result A * World.

Definition ret {A} (a : A) : M A := fun w => (Ok a, w).

Definition raise {A} (e : exn) : M A := fun w => (Raise e, w).

Definition bind {A B} (m : M A) (k : A -> M B) : M B :=
  fun w =>
    match m w with
    | (Ok a, w') => k a w'
    | (Raise e, w') => (Raise e, w')
    end.

Declare Scope py_scope.
Delimit Scope py_scope with py.
Notation "x <- m ;; k" := (bind m (fun x => k))
  (at level 90, m at next level, right associativity) : py_scope.
Notation "m ;;; k" := (bind m (fun _ => k))
  (at level 90, right associativity) : py_scope.
Local Open Scope py_scope.

(** [try: body  except Exception: handler]. *)
Definition try_except {A} (body : M A) (handler : exn -> M A) : M A :=
  fun w =>
    match body w with
    | (Raise e, w') => if is_Exception e then handler e w' else (Raise e, w')
    | r => r
    end.

(** [try: body  finally: cleanup]; the cleanup blocks of the program
    swallow their own exceptions, an exception of the cleanup would
    replace the outcome of the body. *)
Definition try_finally {A} (body : M A) (cleanup : M unit) : M A :=
  fun w =>
    match body w with
    | (r, w') =>
      match cleanup w' with
      | (Ok _, w'') => (r, w'')
      | (Raise e, w'') => (Raise e, w'')
      end
    end.

Definition pass : M unit := ret tt.

Definition when (b : bool) (m : M unit) : M unit := if b then m else pass.

Definition show (ev : ui_event) : M unit :=
  fun w => (Ok tt, mkWorld (session_state w) (csv_file w) (tmp_files w) (screen w ++ [ev])).

Definition session_contains (key : string) : M bool :=
  fun w => (Ok (bool_decide (is_Some (session_state w !! key))), w).

(** [st.session_state.key]. *)
Definition session_get (key : string) : M pyval :=
  fun w =>
    match session_state w !! key with
    | Some v => (Ok v, w)
    | None => (Raise (AttributeError key), w)
    end.

(** [st.session_state.key = v]. *)
Definition session_set (key : string) (v : pyval) : M unit :=
  fun w => (Ok tt, mkWorld (<[key := v]> (session_state w)) (csv_file w) (tmp_files w) (screen w)).

Definition get_csv : M (option pystr) := fun w => (Ok (csv_file w), w).

Definition put_csv (f : option pystr) : M unit :=
  fun w => (Ok tt, mkWorld (session_state w) f (tmp_files w) (screen w)).

Definition get_tmp : M (gset pystr) := fun w => (Ok (tmp_files w), w).

Definition put_tmp (fs : gset pystr) : M unit :=
  fun w => (Ok tt, mkWorld (session_state w) (csv_file w) fs (screen w)).

Definition lift {A} (r : result A) : M A := fun w => (r, w).

(** The names bound at module level, by the imports and the definitions of
    the script; no builtin is called [RTCConfiguration] or
    [webrtc_streamer]. *)
Definition module_globals : list string :=
  ["csv"; "os"; "tempfile"; "time"; "datetime"; "st"; "CSV_FILE";
   "initialize_csv"; "transcribe_audio"; "normalize_tags"; "save_entry";
   "load_entries"; "inject_css"; "main"]%string.

(** Evaluation of a global name. *)
Definition global (name : string) : M unit :=
  if existsb (String.eqb name) module_globals then pass else raise (NameError name).

(* ===================================================================== *)
(** ** Entry store *)
(* ===================================================================== *)

(** The store file is the text in [csv_file].  Opening and writing it are
    modelled where they succeed: an error of the file system or of the
    text encoding is not among the outcomes of [initialize_csv] and
    [save_entry]. *)

Definition header : Csv.row := [lit "Timestamp"; lit "Mood"; lit "Tags"; lit "Notes"].

Definition initialize_csv : M unit :=
  f <- get_csv ;;
  match f with
  | None => put_csv (Some (Csv.writerow header))
  | Some _ => pass
  end.

(** [save_entry(mood, tags, notes)]; [now] is the clock reading formatted
    by [strftime].  Mode 'a' creates the file when it is missing. *)
Definition save_entry (now : pystr) (mood tags notes : pystr) : M unit :=
  initialize_csv ;;;
  f <- get_csv ;;
  put_csv (Some (match f with Some c => c | None => [] end
                 ++ Csv.writerow [now; mood; tags; notes])).

Definition load_entries : M (list Csv.row) :=
  f <- get_csv ;;
  match f with
  | None => ret []
  | Some content => rows <- lift (Csv.reader content) ;; ret (tl rows)
  end.

(* ===================================================================== *)
(** ** Audio transcriber *)
(* ===================================================================== *)

(** What the conversion block (pydub import, [from_file], [export]) does. *)
Inductive Conversion :=
| Converted
| PydubMissing
| DecodeFailed
| ExportFailed (wav_created : bool).

(** What the recognition block ([AudioFile], [record], [recognize_google])
    does. *)
Inductive Recognition :=
| Transcript (text : pystr)
| NotUnderstood
| ServiceDown
| Failed (msg : pystr)
| Interrupted.

(** The outcomes of the calls that leave the program during one run:
    whether [speech_recognition] can be imported; the path [tempfile]
    picks, without the suffix, or [None] when it cannot create a file;
    whether the write to the temp file succeeds; the conversion; the
    recognition; for each path whether [os.remove] is able to remove it;
    the formatted clock reading. *)
Record Env := mkEnv {
  have_speech_recognition : bool;
  temp_name : option pystr;
  temp_write_ok : bool;
  conversion : Conversion;
  recognition : Recognition;
  remove_ok : pystr -> bool;
  now : pystr
}.

(** The argument of [transcribe_audio]: an object of [st.file_uploader],
    which has a [name], or any other value. *)
Inductive pyobj :=
| UploadedFile (name : pystr) (data : bytes)
| Plain (v : pyval).

Fixpoint str_eqb (a b : pystr) : bool :=
  match a, b with
  | [], [] => true
  | x :: a', y :: b' => (x =? y) && str_eqb a' b'
  | _, _ => false
  end.

(** [os.path.splitext(p)[1]]: the extension starts at the last dot of the
    last path component, unless only dots come before it. *)
Definition splitext_ext (p : pystr) : pystr :=
  let name := List.last (split SLASH p) [] in
  let parts := split DOT name in
  let root := join [DOT] (List.removelast parts) in
  if (1 <? length parts)%nat && existsb (fun c => negb (c =? DOT)) root
  then DOT :: List.last parts []
  else [].

Definition import_speech_recognition (env : Env) : M unit :=
  if have_speech_recognition env then pass else raise ImportError.

(** [with tempfile.NamedTemporaryFile(delete=False, suffix=suffix) as
    temp_in: temp_in.write(audio_bytes)], giving [temp_in.name].  The file
    stays when the write raises. *)
Definition NamedTemporaryFile_write (env : Env) (suffix : pystr) (audio_bytes : pyval)
  : M pystr :=
  match temp_name env with
  | None => raise OSError
  | Some base =>
    let path := base ++ suffix in
    fs <- get_tmp ;;
    put_tmp ({[path]} ∪ fs) ;;;
    match audio_bytes with
    | VBytes _ => if temp_write_ok env then ret path else raise OSError
    | _ => raise TypeError
    end
  end.

(** [from pydub import AudioSegment; AudioSegment.from_file(src)
    .export(dst, format="wav")]. *)
Definition pydub_convert (env : Env) (src dst : pystr) : M unit :=
  match conversion env with
  | Converted => fs <- get_tmp ;; put_tmp ({[dst]} ∪ fs)
  | PydubMissing => raise ImportError
  | DecodeFailed => raise (Exception (lit "Decoding failed"))
  | ExportFailed wav_created =>
    when wav_created (fs <- get_tmp ;; put_tmp ({[dst]} ∪ fs)) ;;;
    raise OSError
  end.

(** [with sr.AudioFile(wav_path) as source: audio = recognizer.record(source);
    text = recognizer.recognize_google(audio)]. *)
Definition recognize (env : Env) (wav_path : pystr) : M pystr :=
  match recognition env with
  | Transcript text => ret text
  | NotUnderstood => raise UnknownValueError
  | ServiceDown => raise RequestError
  | Failed msg => raise (Exception msg)
  | Interrupted => raise KeyboardInterrupt
  end.

(** [os.remove(path)]. *)
Definition os_remove (env : Env) (path : pystr) : M unit :=
  fs <- get_tmp ;;
  if bool_decide (path ∈ fs) && remove_ok env path
  then put_tmp (fs ∖ {[path]})
  else raise OSError.

(** [str(e)]. *)
Definition str_exn (e : exn) : pystr :=
  match e with
  | Exception msg => msg
  | _ => []
  end.

Definition transcribe_audio (env : Env) (uploaded_file : pyobj) : M pystr :=
  imported <- try_except (import_speech_recognition env ;;; ret true)
                         (fun _ => ret false) ;;
  if negb imported then
    ret (lit "[speech_recognition not available — install it in your environment]")
  else
    let '(suffix, audio_bytes) :=
      match uploaded_file with
      | UploadedFile name data => (lower (splitext_ext name), VBytes data)
      | Plain v => (lit ".wav", v)
      end in
    temp_in_path <- NamedTemporaryFile_write env suffix audio_bytes ;;
    converted <-
      (if negb (str_eqb suffix (lit ".wav")) then
         try_except
           (let wav_path := temp_in_path ++ lit ".wav" in
            pydub_convert env temp_in_path wav_path ;;;
            ret (inl wav_path))
           (fun _ =>
              ret (inr (lit "[Failed to convert audio — ensure pydub and ffmpeg are installed]")))
       else ret (inl temp_in_path)) ;;
    match converted with
    | inr sentinel => ret sentinel
    | inl wav_path =>
      try_finally
        (try_except
           (recognize env wav_path)
           (fun e =>
              match e with
              | UnknownValueError => ret (lit "[Could not understand audio]")
              | RequestError =>
                ret (lit "[Speech recognition service unavailable — network required]")
              | _ => ret (lit "[Transcription error: " ++ str_exn e ++ lit "]")
              end))
        (try_except (os_remove env temp_in_path) (fun _ => pass) ;;;
         when (negb (str_eqb wav_path temp_in_path))
              (try_except (os_remove env wav_path) (fun _ => pass)))
    end.

(* ===================================================================== *)
(** ** Form controller *)
(* ===================================================================== *)

(** The values the widgets return in one run of the script. *)
Record Widgets := mkWidgets {
  record_btn : bool;
  webrtc_playing : bool;
  clear_btn : bool;
  mood : Z;
  selected_stressors : list pystr;
  custom_tags : pystr;
  notes : pystr;
  uploaded_audio : option (pystr * bytes);
  submitted : bool;
  show_last_n : nat
}.

Fixpoint for_each {A} (l : list A) (body : A -> M unit) : M unit :=
  match l with
  | [] => pass
  | x :: r => body x ;;; for_each r body
  end.

(** The transcription step of the submit handler. *)
Definition transcribe_step (env : Env) (wd : Widgets) : M pystr :=
  match uploaded_audio wd with
  | Some (name, data) =>
    show (Spinner (lit "🎤 Transcribing audio...")) ;;;
    transcribe_audio env (UploadedFile name data)
  | None =>
    voice_recorded <- session_get "voice_recorded" ;;
    pending_voice <-
      (if truthy_val voice_recorded then
         b <- session_get "recorded_audio_bytes" ;; ret (truthy_val b)
       else ret false) ;;
    if pending_voice then
      show (Spinner (lit "🎤 Transcribing voice note...")) ;;;
      recorded <- session_get "recorded_audio_bytes" ;;
      transcribe_audio env (Plain recorded)
    else ret []
  end.

(** The notes to save, from the typed notes and the transcription. *)
Definition combine_notes (notes transcribed_text : pystr) : M pystr :=
  if truthy transcribed_text && startswith [LBRACKET] transcribed_text then
    show (Warning (lit "Audio transcription issue: " ++ transcribed_text)) ;;;
    ret notes
  else if truthy transcribed_text then
    if truthy notes
    then ret (notes ++ [LF; LF] ++ lit "[Voice note]: " ++ transcribed_text)
    else ret transcribed_text
  else ret notes.

(** The body of [if submitted:]. *)
Definition on_submit (env : Env) (wd : Widgets) (all_tags : pystr) : M unit :=
  let tags := normalize_tags (Some all_tags) in
  transcribed_text <- transcribe_step env wd ;;
  final_notes <- combine_notes (notes wd) transcribed_text ;;
  if negb (truthy final_notes) then
    show (Warning (lit "Please add some notes (typed or voice/audio) before saving."))
  else
    save_entry (now env) (str_of_int (mood wd)) tags final_notes ;;;
    session_set "voice_recorded" (VBool false) ;;;
    session_set "recorded_audio_bytes" VNone ;;;
    show (Success (lit "✨ Entry saved — good job taking a moment for yourself")).

Definition combined_tags (wd : Widgets) : pystr :=
  let all_tags := join (lit ", ") (selected_stressors wd) in
  if truthy (custom_tags wd) then
    if truthy all_tags then all_tags ++ lit ", " ++ custom_tags wd else custom_tags wd
  else all_tags.

(** The sidebar.  The slider runs from 1 to [min(20, len(entries))]; with
    one entry the two bounds are equal and [st.sidebar.slider] raises; else
    it gives the value the user chose between the bounds. *)
Definition sidebar (wd : Widgets) (entries : list Csv.row) : M unit :=
  match entries with
  | [] => show (SidebarInfo (lit "No entries yet. Add your first calming check-in above."))
  | _ =>
    let max_value := Nat.min 20 (length entries) in
    if (max_value <=? 1)%nat then raise StreamlitInvalidMinMaxError
    else
      let num := Nat.max 1 (Nat.min (show_last_n wd) max_value) in
      for_each (rev (skipn (length entries - num) entries))
        (fun r =>
           match firstn 4 (r ++ repeat [] 4) with
           | [ts; mood; tags; notes] =>
             show (SidebarCard ts mood tags
                     (firstn 120 notes ++ if (120 <? length notes)%nat then lit "..." else []))
           | _ => pass
           end)
  end.

(** One run of the script. *)
Definition main (env : Env) (wd : Widgets) : M unit :=
  has <- session_contains "voice_recorded" ;;
  when (negb has) (session_set "voice_recorded" (VBool false)) ;;;
  has <- session_contains "recorded_audio_bytes" ;;
  when (negb has) (session_set "recorded_audio_bytes" VNone) ;;;
  when (record_btn wd)
    (global "RTCConfiguration" ;;;
     global "webrtc_streamer" ;;;
     when (webrtc_playing wd)
       (show (Info (lit "🎙️ Recording in progress... Speak clearly into your microphone.")))) ;;;
  voice_recorded <- session_get "voice_recorded" ;;
  when (truthy_val voice_recorded)
    (show (Success (lit "✅ Voice note recorded successfully!")) ;;;
     when (clear_btn wd)
       (session_set "voice_recorded" (VBool false) ;;;
        session_set "recorded_audio_bytes" VNone ;;;
        raise RerunException)) ;;;
  let all_tags := combined_tags wd in
  when (bool_decide (is_Some (uploaded_audio wd)))
    (show (Info (lit "📝 Audio file selected. Click Save to transcribe and add it to your notes."))) ;;;
  when (submitted wd) (on_submit env wd all_tags) ;;;
  entries <- load_entries ;;
  sidebar wd entries.

(** The world after a run, whether the run ended or raised. *)
Definition run (env : Env) (wd : Widgets) (w : World) : World :=
  let w' := snd (main env wd w) in
  mkWorld (session_state w') (csv_file w') (tmp_files w') [].

(** The worlds a session can be in: it starts with an empty
    [session_state], and every interaction runs the script once. *)
Inductive reachable : World -> Prop :=
| reach_start (csv : option pystr) (tmp : gset pystr) :
    reachable (mkWorld ∅ csv tmp [])
| reach_run (env : Env) (wd : Widgets) (w : World) :
    reachable w -> reachable (run env wd w).

(* ===================================================================== *)
(** ** Notions used in the statements *)
(* ===================================================================== *)

(** What every token of a normalized tag string satisfies. *)
Definition tag (p : pystr) : Prop :=
  strip p = p /\ p <> [] /\ startswith [HASH] p = true /\ ~ In COMMA p.

(** The parser started in state [self] on the text [s]. *)
Definition parse (self : Csv.Reader) (s : pystr) : result (list Csv.row) :=
  Csv.read_records self (Csv.readlines s).

(** What [read_records] does once a line has gone through the parser. *)
Definition after_line (self : Csv.Reader) (ls : list pystr) : result (list Csv.row) :=
  match Csv.state self with
  | Csv.START_RECORD =>
    rbind (Csv.read_records Csv.parse_reset ls)
          (fun rest => Ok (rev' (Csv.fields self) :: rest))
  | _ => Csv.read_records self ls
  end.

(** A row the reader accepts: no field is longer than the field limit. *)
Definition fits (r : Csv.row) : Prop :=
  Forall (fun f => N.of_nat (length f) <= Csv.field_limit) r.

(** The text of a file into which [rows] were written one after the other. *)
Definition written (rows : list Csv.row) : pystr :=
  concat (List.map Csv.writerow rows).

(** The two states in which a field can begin. *)
Definition field_start (st : Csv.ParserState) : Prop :=
  st = Csv.START_RECORD \/ st = Csv.START_FIELD.

(** The store holds [rows]: the file is missing and there is no row, or
    its text is what the program wrote for the header and the rows. *)
Definition holds (f : option pystr) (rows : list Csv.row) : Prop :=
  (f = None /\ rows = []) \/ f = Some (written (header :: rows)).

(** An argument [transcribe_audio] is meant for: an uploaded file or the
    bytes of a recording. *)
Definition is_audio (o : pyobj) : Prop :=
  match o with
  | UploadedFile _ _ => True
  | Plain (VBytes _) => True
  | Plain _ => False
  end.

(** The strings by which [transcribe_audio] reports a failure. *)
Definition sentinel (s : pystr) : Prop :=
  s = lit "[speech_recognition not available — install it in your environment]"
  \/ s = lit "[Failed to convert audio — ensure pydub and ffmpeg are installed]"
  \/ s = lit "[Could not understand audio]"
  \/ s = lit "[Speech recognition service unavailable — network required]"
  \/ exists msg, s = lit "[Transcription error: " ++ msg ++ lit "]".

(** [m] keeps [P]: the world [m] leaves satisfies [P] when the world it
    starts in does, whether [m] returns or raises. *)
Definition keeps {A} (P : World -> Prop) (m : M A) : Prop :=
  forall w, P w -> P (snd (m w)).

(** [m] returns from every world, and what it returns satisfies [P]. *)
Definition returns {A} (m : M A) (P : A -> Prop) : Prop :=
  forall w, exists a, fst (m w) = Ok a /\ P a.

(** [P] does not look at the temp directory, at the store, at the page. *)
Definition ignores_tmp (P : World -> Prop) : Prop :=
  forall w fs, P w -> P (mkWorld (session_state w) (csv_file w) fs (screen w)).

Definition ignores_csv (P : World -> Prop) : Prop :=
  forall w f, P w -> P (mkWorld (session_state w) f (tmp_files w) (screen w)).

Definition ignores_screen (P : World -> Prop) : Prop :=
  forall w scr, P w -> P (mkWorld (session_state w) (csv_file w) (tmp_files w) scr).

(** The spinner that opens the branch of the submit handler in which a
    recorded voice note is transcribed. *)
Definition voice_spinner : ui_event :=
  Spinner (lit "🎤 Transcribing voice note...").

(** [voice_recorded] is absent or [False]. *)
Definition never_recorded (w : World) : Prop :=
  forall v, session_state w !! "voice_recorded"%string = Some v -> v = VBool false.

Definition no_voice_transcription (w : World) : Prop :=
  never_recorded w /\ ~ In voice_spinner (screen w).

(** The store file after one more row is saved into the store [f]. *)
Definition appended (f : option pystr) (r : Csv.row) : option pystr :=
  Some (match f with Some c => c | None => Csv.writerow header end
        ++ Csv.writerow r).

(** The row the submit handler saves for the notes [n]. *)
Definition entry_row (env : Env) (wd : Widgets) (all_tags n : pystr) : Csv.row :=
  [now env; str_of_int (mood wd); normalize_tags (Some all_tags); n].

(** The notes field the submit handler writes after a transcription that
    succeeded. *)
Definition with_voice_note (notes transcript : pystr) : pystr :=
  if truthy notes
  then notes ++ [LF; LF] ++ lit "[Voice note]: " ++ transcript
  else transcript.

(** *** Concrete inputs of the examples *)

Definition fresh_world : World := mkWorld ∅ None ∅ [].

Definition clock : pystr := lit "2024-05-17 09:30:00".


(** Everything works and the service hears "hello". *)
Definition env_ok : Env :=
  mkEnv true (Some (lit "/tmp/tmpab12cd34")) true Converted
        (Transcript (lit "hello")) (fun _ => true) clock.

(** pydub is not installed. *)
Definition env_no_pydub : Env :=
  mkEnv true (Some (lit "/tmp/tmpab12cd34")) true PydubMissing
        (Transcript (lit "hello")) (fun _ => true) clock.

(** No temp file can be created. *)
Definition env_no_temp : Env :=
  mkEnv true None true Converted (Transcript (lit "hello")) (fun _ => true) clock.

(** The service returns a transcript that starts with a bracket. *)
Definition env_bracket : Env :=
  mkEnv true (Some (lit "/tmp/tmpab12cd34")) true Converted
        (Transcript (lit "[laughter] so today went well")) (fun _ => true) clock.

(** The service does not understand the audio. *)
Definition env_not_understood : Env :=
  mkEnv true (Some (lit "/tmp/tmpab12cd34")) true Converted
        NotUnderstood (fun _ => true) clock.

Definition note_mp3 : pyobj := UploadedFile (lit "note.mp3") [].
Definition note_wav : pyobj := UploadedFile (lit "note.wav") [].

(** Typed notes and a wav upload, Save pressed. *)
Definition wd_typed_and_audio : Widgets :=
  mkWidgets false false false 4 [lit "Work Stress"] (lit "exercise")
            (lit "Feeling okay") (Some (lit "note.wav", [])) true 5.

(** Only a wav upload, Save pressed. *)
Definition wd_audio_only : Widgets :=
  mkWidgets false false false 3 [] [] [] (Some (lit "note.wav", [])) true 5.

(** The Record Note button pressed. *)
Definition wd_record : Widgets :=
  mkWidgets true false false 3 [] [] [] None false 5.

(** Nothing typed, a wav upload, Save pressed. *)
Definition wd_typed_only : Widgets :=
  mkWidgets false false false 2 [] [] (lit "Slept badly") None true 5.

(* ===================================================================== *)
(** ** Notions of the further properties *)
(* ===================================================================== *)

(** Every value [m] returns satisfies [Q]. *)
Definition only_returns {A} (m : M A) (Q : A -> Prop) : Prop :=
  forall w a, fst (m w) = Ok a -> Q a.

(** The file [path] exists in the temp directory. *)
Definition in_tmp (path : pystr) (w : World) : Prop := path ∈ tmp_files w.

(** The store still begins with the text [c]. *)
Definition store_extends (c : pystr) (w : World) : Prop :=
  exists tail, csv_file w = Some (c ++ tail).

(** The tags of a comma-separated string, each with its marker. *)
Definition tags_of (s : pystr) : list pystr :=
  List.map add_marker (List.filter truthy (List.map strip (split COMMA s))).

(** A string of commas and whitespace only. *)
Definition blank (s : pystr) : Prop :=
  forall c, In c s -> c = COMMA \/ is_space c = true.

(** The notes text of a sidebar card: the first 120 characters, and an
    ellipsis when something was cut. *)
Definition preview (n : pystr) : pystr :=
  firstn 120 n ++ if (120 <? length n)%nat then lit "..." else [].

(** The card of a stored row: its first four fields, a missing field
    being empty. *)
Definition card_of (r : Csv.row) : ui_event :=
  SidebarCard (nth 0 r []) (nth 1 r []) (nth 2 r []) (preview (nth 3 r [])).

(** The number of cards the sidebar shows for the slider value of [wd]. *)
Definition shown (wd : Widgets) (entries : list Csv.row) : nat :=
  Nat.max 1 (Nat.min (show_last_n wd) (Nat.min 20 (length entries))).

(** The session state after the two initialisations at the head of
    [main]. *)
Definition init_session (ss : gmap string pyval) : gmap string pyval :=
  let ss1 :=
    if bool_decide (is_Some (ss !! "voice_recorded"%string)) then ss
    else <["voice_recorded"%string := VBool false]> ss in
  if bool_decide (is_Some (ss1 !! "recorded_audio_bytes"%string)) then ss1
  else <["recorded_audio_bytes"%string := VNone]> ss1.

(** Both keys of the voice recording are in the session state. *)
Definition keys_present (w : World) : Prop :=
  is_Some (session_state w !! "voice_recorded"%string)
  /\ is_Some (session_state w !! "recorded_audio_bytes"%string).

(** *** More concrete inputs *)

(** speech_recognition is not installed. *)
Definition env_no_library : Env :=
  mkEnv false (Some (lit "/tmp/tmpab12cd34")) true Converted
        (Transcript (lit "hello")) (fun _ => true) clock.

(** The temp file is created but the write to it fails. *)
Definition env_disk_full : Env :=
  mkEnv true (Some (lit "/tmp/tmpab12cd34")) false Converted
        (Transcript (lit "hello")) (fun _ => true) clock.

(** The recognition is interrupted from the keyboard. *)
Definition env_interrupted : Env :=
  mkEnv true (Some (lit "/tmp/tmpab12cd34")) true Converted
        Interrupted (fun _ => true) clock.

(** A session whose keys are set, with a store that holds one entry and
    another file in the temp directory. *)
Definition one_entry : Csv.row :=
  [lit "2024-05-16 21:10:00"; lit "3"; lit "#rest"; lit "Long day, early night"].

Definition idle_world : World :=
  mkWorld (<["voice_recorded"%string := VBool false]>
             (<["recorded_audio_bytes"%string := VNone]> ∅))
          (Some (Csv.writerow header ++ Csv.writerow one_entry))
          {[ lit "/tmp/other.txt" ]} [].

(** A voice note is marked as recorded (no run of the script does that). *)
Definition recorded_world : World :=
  mkWorld (<["voice_recorded"%string := VBool true]>
             (<["recorded_audio_bytes"%string := VBytes [Byte.x01]]> ∅))
          None ∅ [].

(** The Clear button pressed. *)
Definition wd_clear : Widgets :=
  mkWidgets false false true 3 [] [] [] None false 5.

(** Nothing pressed: the page is only rendered. *)
Definition wd_idle : Widgets :=
  mkWidgets false false false 3 [] [] [] None false 5.

(** The world after the two initialisations at the head of [main]. *)
Definition initialised (w : World) : World :=
  mkWorld (init_session (session_state w)) (csv_file w) (tmp_files w) (screen w).

(** The session state after the submit handler saved an entry. *)
Definition reset_voice (ss : gmap string pyval) : gmap string pyval :=
  <["recorded_audio_bytes"%string := VNone]> (<["voice_recorded"%string := VBool false]> ss).

(** What the page gains in a run that saves nothing. *)
Definition upload_hint (wd : Widgets) : list ui_event :=
  if bool_decide (is_Some (uploaded_audio wd))
  then [Info (lit "📝 Audio file selected. Click Save to transcribe and add it to your notes.")]
  else [].

(** What the sidebar adds to the page for the entries of the store: the
    message of the empty store, nothing for a single entry (the slider
    raises before a card is drawn), the cards of the last entries else. *)
Definition sidebar_events (wd : Widgets) (entries : list Csv.row) : list ui_event :=
  match entries with
  | [] => [SidebarInfo (lit "No entries yet. Add your first calming check-in above.")]
  | [_] => []
  | _ => List.map card_of (firstn (shown wd entries) (rev entries))
  end.

(** How the sidebar ends for the entries of the store. *)
Definition sidebar_outcome (entries : list Csv.row) : result unit :=
  match entries with
  | [_] => Raise StreamlitInvalidMinMaxError
  | _ => Ok tt
  end.

(** A second stored entry. *)
Definition older_entry : Csv.row :=
  [lit "2024-05-15 08:05:00"; lit "2"; lit "#Work Stress, #sleep"; lit "Short night"].

(** A session whose keys are set, over a store that holds two entries. *)
Definition two_entries_world : World :=
  mkWorld (<["voice_recorded"%string := VBool false]>
             (<["recorded_audio_bytes"%string := VNone]> ∅))
          (Some (Csv.writerow header ++ Csv.writerow older_entry ++ Csv.writerow one_entry))
          ∅ [].

(* ===================================================================== *)
(** * Properties *)
(* ===================================================================== *)

(** ** Strings *)

Section StringFacts.

Lemma rev'_rev {A} (l : list A) : rev' l = rev l.
Proof. unfold rev'. symmetry. apply rev_alt. Qed.

Lemma rstrip_rev s : rstrip s = rev (lstrip (rev s)).
Proof. unfold rstrip. now rewrite !rev'_rev. Qed.

Lemma lstrip_idem s : lstrip (lstrip s) = lstrip s.
Proof.
  induction s as [|c r IH]; simpl; [reflexivity|].
  destruct (is_space c) eqn:E; [exact IH|].
  simpl. now rewrite E.
Qed.

Lemma lstrip_length s : (length (lstrip s) <= length s)%nat.
Proof.
  induction s as [|c r IH]; simpl; [lia|].
  destruct (is_space c); simpl; lia.
Qed.

Lemma lstrip_In c s : In c (lstrip s) -> In c s.
Proof.
  induction s as [|d r IH]; simpl; [tauto|].
  destruct (is_space d); simpl; tauto.
Qed.

Lemma lstrip_app_keep a c b :
  is_space c = false -> lstrip (a ++ c :: b) = lstrip a ++ c :: b.
Proof.
  intros Hc. induction a as [|d r IH]; simpl.
  - now rewrite Hc.
  - destruct (is_space d); [exact IH | reflexivity].
Qed.

Lemma rstrip_length s : (length (rstrip s) <= length s)%nat.
Proof.
  rewrite rstrip_rev, length_rev.
  etransitivity; [apply lstrip_length|]. now rewrite length_rev.
Qed.

Lemma rstrip_In c s : In c (rstrip s) -> In c s.
Proof.
  rewrite rstrip_rev, <- in_rev. intros H%lstrip_In. now apply in_rev.
Qed.

Lemma rstrip_idem s : rstrip (rstrip s) = rstrip s.
Proof. rewrite !rstrip_rev, rev_involutive. now rewrite lstrip_idem. Qed.

Lemma rstrip_cons_keep c s :
  is_space c = false -> rstrip (c :: s) = c :: rstrip s.
Proof.
  intros Hc. rewrite !rstrip_rev. simpl rev at 2.
  rewrite (lstrip_app_keep _ c [] Hc), rev_app_distr. reflexivity.
Qed.

Lemma strip_In c s : In c (strip s) -> In c s.
Proof. unfold strip. intros H%rstrip_In. now apply lstrip_In. Qed.

Lemma strip_length s : (length (strip s) <= length s)%nat.
Proof.
  unfold strip. etransitivity; [apply rstrip_length | apply lstrip_length].
Qed.

Lemma strip_cons_space c s : is_space c = true -> strip (c :: s) = strip s.
Proof. intros Hc. unfold strip. simpl. now rewrite Hc. Qed.

Lemma strip_idem s : strip (strip s) = strip s.
Proof.
  unfold strip.
  destruct (lstrip s) as [|c r] eqn:E; [reflexivity|].
  assert (Hc : is_space c = false).
  { pose proof (lstrip_idem s) as H. rewrite E in H. simpl in H.
    destruct (is_space c); [|reflexivity].
    pose proof (lstrip_length r) as L. rewrite H in L. simpl in L. lia. }
  rewrite (rstrip_cons_keep _ _ Hc). simpl. rewrite Hc.
  rewrite (rstrip_cons_keep _ _ Hc). now rewrite rstrip_idem.
Qed.

(** A non-empty string that [strip] leaves alone starts with a character
    that is no whitespace, and stays fixed when such a character is put in
    front. *)
Lemma strip_fixed_head c s :
  strip (c :: s) = c :: s -> is_space c = false.
Proof.
  intros H. destruct (is_space c) eqn:E; [|reflexivity].
  rewrite (strip_cons_space _ _ E) in H.
  pose proof (strip_length s) as L. rewrite H in L. simpl in L. lia.
Qed.

Lemma strip_fixed_rstrip s : strip s = s -> rstrip s = s.
Proof.
  destruct s as [|c r]; [reflexivity|].
  intros H. pose proof (strip_fixed_head _ _ H) as Hc.
  unfold strip in H. simpl in H. now rewrite Hc in H.
Qed.

Lemma strip_cons_keep c s :
  is_space c = false -> s <> [] -> strip s = s -> strip (c :: s) = c :: s.
Proof.
  intros Hc Hs H. unfold strip. simpl. rewrite Hc.
  rewrite (rstrip_cons_keep _ _ Hc). now rewrite (strip_fixed_rstrip _ H).
Qed.

Lemma split_nonempty sep s : split sep s <> [].
Proof.
  destruct s as [|c r]; simpl; [discriminate|].
  destruct (c =? sep); [discriminate|].
  destruct (split sep r); discriminate.
Qed.

Lemma split_no_sep sep s : Forall (fun t => ~ In sep t) (split sep s).
Proof.
  induction s as [|c r IH]; simpl.
  - constructor; [tauto | constructor].
  - destruct (N.eqb_spec c sep) as [->|Hne].
    + constructor; [tauto | exact IH].
    + destruct (split sep r) as [|t ts]; inversion IH; subst.
      * constructor; [simpl; intuition congruence | constructor].
      * constructor; [simpl; intuition congruence | assumption].
Qed.

Lemma split_app_sep sep t r :
  ~ In sep t -> split sep (t ++ sep :: r) = t :: split sep r.
Proof.
  induction t as [|c t IH]; simpl; intros Hn.
  - now rewrite N.eqb_refl.
  - destruct (N.eqb_spec c sep) as [->|Hne]; [tauto|].
    rewrite IH by tauto. reflexivity.
Qed.

Lemma split_none sep t : ~ In sep t -> split sep t = [t].
Proof.
  induction t as [|c t IH]; simpl; intros Hn; [reflexivity|].
  destruct (N.eqb_spec c sep) as [->|Hne]; [tauto|].
  rewrite IH by tauto. reflexivity.
Qed.

Lemma fold_left_snoc {A B} (f : A -> B) (l : list A) (acc : list B) :
  fold_left (fun acc p => acc ++ [f p]) l acc = acc ++ List.map f l.
Proof.
  revert acc. induction l as [|x l IH]; intros acc; simpl.
  - now rewrite app_nil_r.
  - rewrite IH, <- app_assoc. reflexivity.
Qed.

Lemma filter_map_strip (l : list pystr) :
  List.map strip (List.filter (fun t => truthy (strip t)) l)
  = List.filter truthy (List.map strip l).
Proof.
  induction l as [|t l IH]; simpl; [reflexivity|].
  destruct (truthy (strip t)); simpl; now rewrite IH.
Qed.

End StringFacts.

(** ** Tag normalizer *)

Section TagNormalizer.

Lemma normalize_tags_contract_eq s :
  normalize_tags (Some s) = normalize_contract s.
Proof.
  destruct s as [|c r]; [reflexivity|].
  unfold normalize_tags, normalize_contract.
  rewrite filter_map_strip.
  rewrite (fold_left_snoc (fun p => if negb (startswith [HASH] p) then HASH :: p else p)).
  rewrite app_nil_l. f_equal. apply map_ext. intros p. unfold add_marker.
  now destruct (startswith [HASH] p).
Qed.

Lemma add_marker_tag t :
  strip t <> [] -> ~ In COMMA t -> tag (add_marker (strip t)).
Proof.
  intros Hne Hc. unfold add_marker.
  assert (Hc' : ~ In COMMA (strip t)) by (intros H%strip_In; tauto).
  destruct (startswith [HASH] (strip t)) eqn:E.
  - repeat split; auto using strip_idem.
  - repeat split.
    + apply strip_cons_keep; auto using strip_idem.
    + discriminate.
    + intros [H|H]; [discriminate H | tauto].
Qed.

Lemma normalized_tokens_tag s :
  Forall tag (List.map add_marker (List.filter truthy (List.map strip (split COMMA s)))).
Proof.
  pose proof (split_no_sep COMMA s) as H.
  induction H as [|t ts Ht _ IH]; simpl; [constructor|].
  destruct (strip t) as [|c r] eqn:E; simpl; [exact IH|].
  constructor; [|exact IH].
  rewrite <- E. apply add_marker_tag; [rewrite E; discriminate | exact Ht].
Qed.

(** Splitting a joined list of tags gives the tags back, each but the
    first behind the space of the separator. *)
Lemma split_join_tags p ps :
  Forall tag (p :: ps) ->
  split COMMA (join (lit ", ") (p :: ps)) = p :: List.map (cons SPACE) ps.
Proof.
  revert p. induction ps as [|q ps IH]; intros p H.
  - simpl. apply split_none. inversion H as [|? ? Hp _]; subst. apply Hp.
  - inversion H as [|? ? Hp Hq]; subst.
    change (join (lit ", ") (p :: q :: ps))
      with (p ++ COMMA :: SPACE :: join (lit ", ") (q :: ps)).
    rewrite split_app_sep by apply Hp.
    change (split COMMA (SPACE :: join (lit ", ") (q :: ps)))
      with (match split COMMA (join (lit ", ") (q :: ps)) with
            | t :: ts => (SPACE :: t) :: ts
            | [] => [[SPACE]]
            end).
    rewrite (IH q Hq). reflexivity.
Qed.

Lemma strip_filter_tags ps :
  Forall tag ps ->
  List.filter truthy (List.map strip (List.map (cons SPACE) ps)) = ps.
Proof.
  induction 1 as [|p ps [Hs [Hne _]] _ IH]; simpl; [reflexivity|].
  rewrite (strip_cons_space SPACE p eq_refl), Hs.
  destruct p; [congruence|]. simpl. now rewrite IH.
Qed.

Lemma add_marker_tags ps : Forall tag ps -> List.map add_marker ps = ps.
Proof.
  induction 1 as [|p ps [_ [_ [Hh _]]] _ IH]; simpl; [reflexivity|].
  unfold add_marker at 1. now rewrite Hh, IH.
Qed.

Lemma normalize_contract_join ps :
  Forall tag ps -> normalize_contract (join (lit ", ") ps) = join (lit ", ") ps.
Proof.
  intros H. destruct ps as [|p ps]; [reflexivity|].
  unfold normalize_contract. rewrite (split_join_tags _ _ H).
  inversion H as [|? ? Hp Hps]; subst.
  destruct Hp as [Hs [Hne [Hh Hc]]].
  simpl List.map at 2. rewrite Hs.
  destruct p as [|c r]; [congruence|].
  simpl List.filter. rewrite (strip_filter_tags _ Hps).
  now rewrite (add_marker_tags _ H).
Qed.

End TagNormalizer.

Lemma tokens_of_normalized ps t :
  Forall tag ps ->
  In t (split COMMA (join (lit ", ") ps)) ->
  strip t <> [] -> In (strip t) ps.
Proof.
  intros H. destruct ps as [|p ps].
  - simpl. intros [<-|[]]. intros Hn. now elim Hn.
  - rewrite (split_join_tags _ _ H). inversion H as [|? ? Hp Hps]; subst.
    intros [<-|Hin] _.
    + left. symmetry. apply Hp.
    + right. apply in_map_iff in Hin as [q [<- Hq]].
      rewrite (strip_cons_space SPACE q eq_refl).
      rewrite List.Forall_forall in Hps. destruct (Hps q Hq) as [-> _]. exact Hq.
Qed.

(** C7. [normalize_tags] does what its contract says: it computes
    [normalize_contract] (split on commas, trim, drop the empty tokens,
    put the marker where it is missing, rejoin with comma and space);
    [None] and the empty string give the empty string; "a, ,b" gives
    "#a, #b"; and every non-empty token of an output starts with the
    marker. *)
Theorem normalize_tags_contract :
  (forall s, normalize_tags (Some s) = normalize_contract s)
  /\ normalize_tags None = []
  /\ normalize_tags (Some []) = []
  /\ normalize_tags (Some (lit "a, ,b")) = lit "#a, #b"
  /\ (forall x t,
        In t (split COMMA (normalize_tags x)) ->
        strip t <> [] ->
        startswith [HASH] (strip t) = true).
Proof.
  split; [exact normalize_tags_contract_eq|].
  do 3 (split; [reflexivity|]).
  intros [s|] t.
  - rewrite normalize_tags_contract_eq. unfold normalize_contract.
    intros Hin Hne.
    pose proof (normalized_tokens_tag s) as Htags.
    pose proof (tokens_of_normalized _ _ Htags Hin Hne) as Hp.
    rewrite List.Forall_forall in Htags. apply (Htags _ Hp).
  - simpl. intros [<-|[]] Hne. now elim Hne.
Qed.

Lemma normalize_tags_contract_witness :
  startswith [HASH] (strip (lit " #b")) = true.
Proof.
  apply (proj2 (proj2 (proj2 (proj2 normalize_tags_contract)))
           (Some (lit "a, ,b")) (lit " #b")).
  - vm_compute. right. left. reflexivity.
  - vm_compute. discriminate.
Defined.

(** C8. [normalize_tags] is idempotent: normalizing a normalized tag
    string changes nothing, whatever the first input was. *)
Theorem normalize_tags_idempotent :
  forall x : option pystr,
    normalize_tags (Some (normalize_tags x)) = normalize_tags x.
Proof.
  intros [s|]; [|reflexivity].
  rewrite !normalize_tags_contract_eq. unfold normalize_contract at 2 3.
  apply normalize_contract_join, normalized_tokens_tag.
Qed.

(** ** The csv module: what is written is read back *)

Section CsvRoundTrip.

Import Csv.
Local Open Scope result_scope.

Lemma readlines_nonempty s : s <> [] -> readlines s <> [].
Proof.
  destruct s as [|c r]; [congruence|]. intros _. simpl.
  destruct (c =? LF); [discriminate|].
  destruct (c =? CR).
  - destruct r as [|c' r']; [discriminate|]. destruct (c' =? LF); discriminate.
  - destruct (readlines r); discriminate.
Qed.

Lemma is_newline_false c :
  is_newline c = false -> (c =? LF) = false /\ (c =? CR) = false.
Proof. unfold is_newline. now intros [? ?]%orb_false_iff. Qed.

(** A character that ends no line is handed to the parser and the rest
    of the text follows in the same line. *)
Lemma parse_char self c s :
  is_newline c = false -> s <> [] ->
  parse self (c :: s) = do self' <- parse_process_char self (Some c); parse self' s.
Proof.
  intros [H1 H2]%is_newline_false Hs. unfold parse. simpl readlines.
  rewrite H1, H2.
  destruct (readlines s) as [|l ls] eqn:E; [now apply readlines_nonempty in E|].
  simpl. now destruct (parse_process_char self (Some c)).
Qed.

Lemma parse_add_char_state self c self' :
  parse_add_char self c = Ok self' -> state self' = state self.
Proof.
  unfold parse_add_char. destruct (field_limit <=? field_len self); [discriminate|].
  now intros [= <-].
Qed.

Lemma quoted_end_of_line self ls :
  state self = IN_QUOTED_FIELD ->
  (do self' <- parse_process_char self None; after_line self' ls)
  = read_records self ls.
Proof.
  intros H. unfold parse_process_char, after_line. rewrite H. simpl. now rewrite H.
Qed.

Lemma quoted_char self c :
  state self = IN_QUOTED_FIELD -> (c =? DQUOTE) = false ->
  parse_process_char self (Some c) = parse_add_char self c.
Proof. intros H Hc. unfold parse_process_char. now rewrite H, Hc. Qed.

(** Inside a quoted field every character but the quote is added to the
    field, line ends included. *)
Lemma parse_quoted_char self c s :
  state self = IN_QUOTED_FIELD -> (c =? DQUOTE) = false ->
  parse self (c :: s) = do self' <- parse_add_char self c; parse self' s.
Proof.
  intros Hst Hc.
  assert (Hline : forall l ls,
             read_records self ((c :: l) :: ls)
             = do self' <- parse_add_char self c; read_records self' (l :: ls)).
  { intros l ls. cbn [read_records feed_line]. rewrite (quoted_char _ _ Hst Hc).
    now destruct (parse_add_char self c). }
  assert (Hend : forall ls,
             read_records self ([c] :: ls)
             = do self' <- parse_add_char self c; read_records self' ls).
  { intros ls. rewrite Hline.
    destruct (parse_add_char self c) as [self'|e] eqn:E; [|reflexivity].
    simpl. apply quoted_end_of_line.
    now rewrite (parse_add_char_state _ _ _ E). }
  unfold parse. simpl readlines.
  destruct (c =? LF) eqn:E1; [apply Hend|].
  destruct (c =? CR) eqn:E2.
  - destruct s as [|c' r']; [apply Hend|].
    destruct (c' =? LF) eqn:E3; [|apply Hend].
    rewrite Hline. simpl readlines. now rewrite E3.
  - destruct (readlines s) as [|l ls] eqn:E; [|apply Hline].
    rewrite Hend. destruct s; [reflexivity|].
    exfalso. revert E. now apply readlines_nonempty.
Qed.

Lemma rev_cons_app {A} (c : A) f fld : rev (c :: f) ++ fld = rev f ++ c :: fld.
Proof. simpl. now rewrite <- app_assoc. Qed.

Lemma add_char_ok st fld n fs c :
  n < field_limit ->
  parse_add_char (mkReader st fld n fs) c = Ok (mkReader st (c :: fld) (n + 1) fs).
Proof.
  intros H. unfold parse_add_char. simpl.
  destruct (N.leb_spec field_limit n); [lia | reflexivity].
Qed.

Ltac reader_simpl :=
  simpl; unfold set_state, parse_save_field; simpl; rewrite ?rev'_rev.

(** The body of a quoted field up to its closing quote. *)
Lemma parse_quoted_body f : forall fld n fs s,
  s <> [] -> n + N.of_nat (length f) <= field_limit ->
  parse (mkReader IN_QUOTED_FIELD fld n fs) (double_quotes f ++ DQUOTE :: s)
  = parse (mkReader QUOTE_IN_QUOTED_FIELD (rev f ++ fld) (n + N.of_nat (length f)) fs) s.
Proof.
  induction f as [|c f IH]; intros fld n fs s Hs Hn.
  - simpl app. rewrite parse_char by (auto; reflexivity).
    simpl. now rewrite N.add_0_r.
  - assert (Hlt : n < field_limit) by (simpl length in Hn; lia).
    assert (Hn' : n + 1 + N.of_nat (length f) <= field_limit)
      by (simpl length in Hn; lia).
    assert (Hne : double_quotes f ++ DQUOTE :: s <> []) by (now destruct (double_quotes f)).
    rewrite rev_cons_app.
    replace (n + N.of_nat (length (c :: f))) with (n + 1 + N.of_nat (length f))
      by (simpl length; lia).
    simpl double_quotes. destruct (c =? DQUOTE) eqn:Ec.
    + apply N.eqb_eq in Ec. subst c.
      simpl app. rewrite parse_char by (auto; discriminate).
      simpl rbind. unfold set_state. simpl.
      rewrite parse_char by (auto; reflexivity).
      unfold parse_process_char. simpl state. simpl (DQUOTE =? DQUOTE).
      cbv iota. rewrite (add_char_ok _ _ _ _ _ Hlt). simpl rbind.
      unfold set_state. simpl. now apply IH.
    + simpl app. rewrite parse_quoted_char by auto.
      rewrite (add_char_ok _ _ _ _ _ Hlt). simpl rbind. now apply IH.
Qed.

Lemma needs_quote_false c :
  needs_quote c = false ->
  (c =? COMMA) = false /\ (c =? DQUOTE) = false /\ is_newline c = false.
Proof.
  unfold needs_quote, is_newline.
  intros [[[H1 H2]%orb_false_iff H3]%orb_false_iff H4]%orb_false_iff.
  now rewrite H1, H2, H3, H4.
Qed.

(** The characters of a field written without quotes. *)
Lemma parse_plain_body f : forall fld n fs s,
  s <> [] -> existsb needs_quote f = false ->
  n + N.of_nat (length f) <= field_limit ->
  parse (mkReader IN_FIELD fld n fs) (f ++ s)
  = parse (mkReader IN_FIELD (rev f ++ fld) (n + N.of_nat (length f)) fs) s.
Proof.
  induction f as [|c f IH]; intros fld n fs s Hs Hq Hn.
  - simpl. now rewrite N.add_0_r.
  - simpl in Hq. apply orb_false_iff in Hq as [Hc Hq].
    apply needs_quote_false in Hc as [Hc1 [Hc2 Hc3]].
    assert (Hlt : n < field_limit) by (simpl length in Hn; lia).
    assert (Hn' : n + 1 + N.of_nat (length f) <= field_limit)
      by (simpl length in Hn; lia).
    rewrite rev_cons_app.
    replace (n + N.of_nat (length (c :: f))) with (n + 1 + N.of_nat (length f))
      by (simpl length; lia).
    simpl app. rewrite parse_char by (auto; now destruct f).
    unfold parse_process_char. simpl state. rewrite Hc3, Hc1.
    rewrite (add_char_ok _ _ _ _ _ Hlt). simpl rbind. now apply IH.
Qed.

Lemma start_field_char st fs c :
  field_start st -> is_newline c = false ->
  parse_process_char (mkReader st [] 0 fs) (Some c)
  = process_start_field (mkReader START_FIELD [] 0 fs) (Some c).
Proof.
  intros [-> | ->] Hc; unfold parse_process_char; simpl; [|reflexivity].
  now rewrite Hc.
Qed.

(** A field and the comma after it. *)
Lemma parse_field_comma st f fs s :
  field_start st -> s <> [] -> N.of_nat (length f) <= field_limit ->
  parse (mkReader st [] 0 fs) (write_field f ++ COMMA :: s)
  = parse (mkReader START_FIELD [] 0 (f :: fs)) s.
Proof.
  intros Hst Hs Hn. unfold write_field.
  destruct (existsb needs_quote f) eqn:Hq.
  - simpl app. rewrite <- app_assoc. simpl app.
    rewrite parse_char by (auto; now destruct (double_quotes f)).
    rewrite start_field_char by auto. simpl rbind. unfold set_state. simpl.
    rewrite parse_quoted_body by (auto; discriminate).
    rewrite parse_char by auto. reader_simpl.
    now rewrite app_nil_r, rev_involutive.
  - destruct f as [|c f].
    + simpl app. rewrite parse_char by auto.
      rewrite start_field_char by auto. reflexivity.
    + simpl in Hq. apply orb_false_iff in Hq as [Hc Hq].
      apply needs_quote_false in Hc as [Hc1 [Hc2 Hc3]].
      simpl app. rewrite parse_char by (auto; now destruct f).
      rewrite start_field_char by auto. unfold process_start_field.
      rewrite Hc3, Hc2, Hc1. rewrite add_char_ok by reflexivity.
      simpl rbind. unfold set_state. simpl.
      rewrite parse_plain_body by (auto; try discriminate; simpl length in Hn; lia).
      rewrite parse_char by auto. reader_simpl.
      rewrite rev_app_distr. simpl. now rewrite rev_involutive.
Qed.

(** The end of a row after a field that is complete: CR closes the field,
    LF is skipped, the end of the line closes the record. *)
Lemma parse_row_end st fld n fs s :
  st = IN_FIELD \/ st = START_FIELD \/ st = QUOTE_IN_QUOTED_FIELD ->
  parse (mkReader st fld n fs) (CR :: LF :: s)
  = do rest <- parse parse_reset s; Ok (rev (rev fld :: fs) :: rest).
Proof.
  intros H. unfold parse. simpl readlines.
  destruct H as [-> | [-> | ->]]; simpl; now rewrite !rev'_rev.
Qed.

(** A field and the end of the row after it. *)
Lemma parse_field_end st f fs s :
  st = START_FIELD \/ (st = START_RECORD /\ f <> []) ->
  N.of_nat (length f) <= field_limit ->
  parse (mkReader st [] 0 fs) (write_field f ++ CR :: LF :: s)
  = do rest <- parse parse_reset s; Ok (rev (f :: fs) :: rest).
Proof.
  intros Hst Hn.
  assert (Hst' : field_start st) by (unfold field_start; tauto).
  unfold write_field. destruct (existsb needs_quote f) eqn:Hq.
  - simpl app. rewrite <- app_assoc. simpl app.
    rewrite parse_char by (auto; now destruct (double_quotes f)).
    rewrite start_field_char by auto. simpl rbind. unfold set_state. simpl.
    rewrite parse_quoted_body by (auto; discriminate).
    rewrite parse_row_end by tauto.
    now rewrite app_nil_r, rev_involutive.
  - destruct f as [|c f].
    + simpl app. destruct Hst as [-> | [_ Hf]]; [|congruence].
      now rewrite parse_row_end by tauto.
    + simpl in Hq. apply orb_false_iff in Hq as [Hc Hq].
      apply needs_quote_false in Hc as [Hc1 [Hc2 Hc3]].
      simpl app. rewrite parse_char by (auto; now destruct f).
      rewrite start_field_char by auto. unfold process_start_field.
      rewrite Hc3, Hc2, Hc1. rewrite add_char_ok by reflexivity.
      simpl rbind. unfold set_state. simpl.
      rewrite parse_plain_body by (auto; try discriminate; simpl length in Hn; lia).
      rewrite parse_row_end by tauto.
      rewrite rev_app_distr. simpl. now rewrite rev_involutive.
Qed.

Lemma join_fields_cons f q r :
  join [COMMA] (List.map write_field (f :: q :: r))
  = write_field f ++ COMMA :: join [COMMA] (List.map write_field (q :: r)).
Proof. reflexivity. Qed.

(** The fields of a row from any of them on, [fs] being the fields read
    before, last first. *)
Lemma parse_fields r : forall st f fs s,
  st = START_FIELD \/ (st = START_RECORD /\ (f <> [] \/ r <> [])) ->
  fits (f :: r) ->
  parse (mkReader st [] 0 fs)
        (join [COMMA] (List.map write_field (f :: r)) ++ CR :: LF :: s)
  = do rest <- parse parse_reset s; Ok ((rev fs ++ f :: r) :: rest).
Proof.
  induction r as [|q r IH]; intros st f fs s Hst Hfit.
  - inversion Hfit as [|? ? Hf _]; subst. simpl List.map. simpl join.
    rewrite parse_field_end; [reflexivity | | exact Hf].
    destruct Hst as [-> | [-> [H|H]]]; [tauto | tauto | congruence].
  - inversion Hfit as [|? ? Hf Hfit']; subst.
    rewrite join_fields_cons, <- app_assoc, <- app_comm_cons.
    rewrite parse_field_comma.
    + rewrite IH by tauto. simpl rev. now rewrite <- app_assoc.
    + destruct Hst as [-> | [-> _]]; unfold field_start; tauto.
    + now destruct (join [COMMA] (List.map write_field (q :: r))).
    + exact Hf.
Qed.

(** One written row is read back as that row. *)
Lemma parse_writerow r s :
  fits r ->
  parse parse_reset (writerow r ++ s)
  = do rest <- parse parse_reset s; Ok (r :: rest).
Proof.
  intros Hfit.
  assert (E : forall f r',
             f <> [] \/ r' <> [] -> fits (f :: r') ->
             parse parse_reset
               ((join [COMMA] (List.map write_field (f :: r')) ++ lineterminator) ++ s)
             = do rest <- parse parse_reset s; Ok ((f :: r') :: rest)).
  { intros f r' Hne Hf. rewrite <- app_assoc.
    change (lineterminator ++ s) with (CR :: LF :: s).
    apply (parse_fields r' START_RECORD f [] s); tauto. }
  destruct r as [|f r]; [reflexivity|].
  destruct f as [|c f]; [destruct r as [|q r]|].
  - reflexivity.
  - apply E; [right; discriminate | exact Hfit].
  - apply E; [left; discriminate | exact Hfit].
Qed.

(** A file into which rows were written is read back as those rows. *)
Lemma reader_written rows :
  Forall fits rows -> reader (written rows) = Ok rows.
Proof.
  unfold reader. change (read_records parse_reset (readlines (written rows)))
    with (parse parse_reset (written rows)).
  induction 1 as [|r rows Hr _ IH]; [reflexivity|].
  unfold written in *. simpl. rewrite parse_writerow by exact Hr.
  now rewrite IH.
Qed.

End CsvRoundTrip.

(** ** Entry store *)

Section EntryStore.

Lemma header_fits : fits header.
Proof. repeat constructor; vm_compute; discriminate. Qed.


Lemma load_entries_holds w rows :
  holds (csv_file w) rows -> Forall fits rows ->
  load_entries w = (Ok rows, w).
Proof.
  intros [[Hf ->] | Hf] Hfit; unfold load_entries, bind, get_csv, lift, ret; rewrite Hf.
  - reflexivity.
  - rewrite reader_written; [reflexivity|].
    constructor; [apply header_fits | exact Hfit].
Qed.





End EntryStore.

(** ** Audio transcriber *)

(** Symbolic execution of a computation of [M]. *)
Ltac exec :=
  cbv beta iota zeta delta
      [bind ret raise try_except try_finally pass when show get_tmp put_tmp
       get_csv put_csv lift is_Exception negb];
  cbn [fst snd tmp_files session_state csv_file screen].

Ltac exec_more := cbn [andb]; exec.

Ltac sets := set_unfold; intuition congruence.

Ltac split_ifs :=
  repeat match goal with
         | |- context [if ?b then _ else _] => destruct b eqn:?; exec_more
         end.

(** *** Computations that return *)

Section Returns.

Context {A B : Type}.

Lemma returns_ret (a : A) (P : A -> Prop) : P a -> returns (ret a) P.
Proof. intros H w. exists a. split; [reflexivity | exact H]. Qed.

Lemma returns_bind (m : M A) (k : A -> M B) (Q : A -> Prop) (P : B -> Prop) :
  returns m Q -> (forall a, Q a -> returns (k a) P) -> returns (bind m k) P.
Proof.
  intros Hm Hk w. destruct (Hm w) as (a & Ha & HQ).
  unfold bind. destruct (m w) as [r w']. simpl in Ha. subst r.
  apply (Hk a HQ).
Qed.

Lemma returns_try_finally (body : M A) (cleanup : M unit) (P : A -> Prop) :
  returns body P -> returns cleanup (fun _ => True) ->
  returns (try_finally body cleanup) P.
Proof.
  intros Hb Hc w. destruct (Hb w) as (a & Ha & HP). exists a. split; [|exact HP].
  unfold try_finally. destruct (body w) as [r w']. simpl in Ha. subst r.
  destruct (Hc w') as (u & Hu & _).
  destruct (cleanup w') as [[u'|e] w'']; simpl in *; congruence.
Qed.

End Returns.

Section Transcriber.

Lemma str_eqb_eq a b : str_eqb a b = true <-> a = b.
Proof.
  revert b. induction a as [|x a IH]; intros [|y b]; simpl; try (split; congruence).
  rewrite andb_true_iff, N.eqb_eq, IH. split; [intros [-> ->] | intros [= -> ->]]; auto.
Qed.

Lemma str_eqb_neq a b : str_eqb a b = false <-> a <> b.
Proof.
  rewrite <- str_eqb_eq. destruct (str_eqb a b); split; congruence.
Qed.

(** C1 on the conversion-failure path: pydub is missing, an mp3 is
    uploaded; the call returns the conversion sentinel and the temp file
    it wrote is still there. *)
Theorem temp_file_left_after_failed_conversion :
  fst (transcribe_audio env_no_pydub note_mp3 fresh_world)
  = Ok (lit "[Failed to convert audio — ensure pydub and ffmpeg are installed]")
  /\ lit "/tmp/tmpab12cd34.mp3" ∈ tmp_files (snd (transcribe_audio env_no_pydub note_mp3 fresh_world)).
Proof.
  split; [vm_compute; reflexivity|].
  apply elem_of_elements. vm_compute. left.
Qed.

Lemma cleanup_after_recognition env name data w base :
  have_speech_recognition env = true ->
  temp_name env = Some base ->
  temp_write_ok env = true ->
  (forall p, remove_ok env p = true) ->
  lower (splitext_ext name) = lit ".wav" \/ conversion env = Converted ->
  (base ++ lower (splitext_ext name)
     ∉ tmp_files (snd (transcribe_audio env (UploadedFile name data) w)))
  /\ (lower (splitext_ext name) <> lit ".wav" ->
      (base ++ lower (splitext_ext name)) ++ lit ".wav"
        ∉ tmp_files (snd (transcribe_audio env (UploadedFile name data) w))).
Proof.
  intros Hsr Htmp Hwr Hrm Hconv. cbv zeta.
  unfold transcribe_audio, import_speech_recognition, NamedTemporaryFile_write,
    pydub_convert, recognize, os_remove.
  rewrite Hsr, Htmp, Hwr.
  set (suffix := lower (splitext_ext name)) in *.
  destruct w as [ss csv tmp scr].
  destruct (str_eqb suffix (lit ".wav")) eqn:Esfx.
  - apply str_eqb_eq in Esfx.
    assert (Hsame : str_eqb (base ++ suffix) (base ++ suffix) = true) by now apply str_eqb_eq.
    destruct (recognition env); exec; rewrite ?Hrm, ?Hsame; exec;
      repeat (case_bool_decide; exec_more); (split; [sets | congruence]).
  - apply str_eqb_neq in Esfx. destruct Hconv as [Hconv | Hconv]; [congruence|].
    rewrite Hconv.
    assert (Hne : (base ++ suffix) ++ lit ".wav" <> base ++ suffix).
    { intros H. apply (f_equal (@length N)) in H.
      rewrite !length_app in H. simpl in H. lia. }
    assert (Hdiff : str_eqb ((base ++ suffix) ++ lit ".wav") (base ++ suffix) = false)
      by now apply str_eqb_neq.
    destruct (recognition env); exec; rewrite ?Hrm, ?Hdiff; exec;
      repeat (case_bool_decide; exec_more); (split; [sets | intros _; sets]).
Qed.


Lemma sentinel_startswith s : sentinel s -> startswith [LBRACKET] s = true.
Proof.
  intros [-> | [-> | [-> | [-> | [msg ->]]]]]; reflexivity.
Qed.

Lemma import_guard_returns env :
  returns (try_except (import_speech_recognition env ;;; ret true)
                      (fun _ => ret false)) (fun _ => True).
Proof.
  intros w. unfold import_speech_recognition.
  destruct (have_speech_recognition env); exec; eauto.
Qed.

Lemma temp_file_returns env base sfx data :
  temp_name env = Some base ->
  temp_write_ok env = true ->
  returns (NamedTemporaryFile_write env sfx (VBytes data)) (fun _ => True).
Proof.
  intros Htmp Hwr w. unfold NamedTemporaryFile_write. rewrite Htmp, Hwr.
  exec. eauto.
Qed.

Lemma conversion_returns env sfx path :
  returns
    (if negb (str_eqb sfx (lit ".wav")) then
       try_except
         (let wav_path := path ++ lit ".wav" in
          pydub_convert env path wav_path ;;;
          ret (inl wav_path))
         (fun _ =>
            ret (inr (lit "[Failed to convert audio — ensure pydub and ffmpeg are installed]")))
     else ret (inl path))
    (fun c => match c with
              | inl _ => True
              | inr s => s = lit "[Failed to convert audio — ensure pydub and ffmpeg are installed]"
              end).
Proof.
  intros w. unfold pydub_convert.
  destruct (str_eqb sfx (lit ".wav"));
    [| destruct (conversion env) as [| | |[|]]];
    exec; eexists; (split; [reflexivity | first [exact I | reflexivity]]).
Qed.

Lemma remove_quietly_returns env p :
  returns (try_except (os_remove env p) (fun _ => pass)) (fun _ => True).
Proof.
  intros w. unfold os_remove. exec.
  destruct (bool_decide _ && remove_ok env p); exec; eauto.
Qed.

Lemma cleanup_returns env p b q :
  returns (try_except (os_remove env p) (fun _ => pass) ;;;
           when b (try_except (os_remove env q) (fun _ => pass)))
          (fun _ => True).
Proof.
  apply returns_bind with (Q := fun _ => True); [apply remove_quietly_returns|].
  intros _ _. destruct b; [apply remove_quietly_returns | now apply returns_ret].
Qed.

(** C2, amended.  When the temp file can be created and written, the
    argument is an uploaded file or the bytes of a recording, and no
    [BaseException] interrupts the recognition, [transcribe_audio] raises
    nothing: it returns the transcript of the service or one of its
    sentinel strings, each of which begins with a bracket. *)
Theorem transcribe_audio_returns env up w :
  temp_name env <> None ->
  temp_write_ok env = true ->
  is_audio up ->
  recognition env <> Interrupted ->
  exists s,
    fst (transcribe_audio env up w) = Ok s
    /\ (recognition env = Transcript s
        \/ (sentinel s /\ startswith [LBRACKET] s = true)).
Proof.
  intros Htmp Hwr Hup Hrec.
  assert (Hsen : forall s, sentinel s ->
             recognition env = Transcript s
             \/ (sentinel s /\ startswith [LBRACKET] s = true)).
  { intros s Hs. right. split; [exact Hs | now apply sentinel_startswith]. }
  revert w. fold (returns (transcribe_audio env up)
                    (fun s => recognition env = Transcript s
                              \/ (sentinel s /\ startswith [LBRACKET] s = true))).
  unfold transcribe_audio.
  apply returns_bind with (Q := fun _ => True);
    [apply import_guard_returns | intros imported _].
  destruct (negb imported).
  { apply returns_ret, Hsen. left. reflexivity. }
  destruct (temp_name env) as [base|] eqn:Etmp; [clear Htmp | congruence].
  destruct up as [name data | [| |data]]; try (now elim Hup); cbv beta iota zeta.
  all: eapply returns_bind with (Q := fun _ => True);
    [ eapply temp_file_returns; eassumption | intros path _ ].
  all: eapply returns_bind;
    [ apply conversion_returns | intros [wav_path | s] Hc; cbv beta in Hc ].
  all: try (subst s; apply returns_ret, Hsen; right; left; reflexivity).
  all: apply returns_try_finally; [| apply cleanup_returns].
  all: intros w; unfold try_except, recognize;
    destruct (recognition env) as [text| | |msg|] eqn:Er; try congruence; exec;
    eexists; (split; [reflexivity|]).
  all: try (left; reflexivity).
  all: apply Hsen; do 2 right.
  1,4: left; reflexivity.
  1,3: right; left; reflexivity.
  all: do 2 right; exists msg; reflexivity.
Qed.

Lemma transcribe_audio_returns_witness :
  exists s,
    fst (transcribe_audio env_not_understood note_wav fresh_world) = Ok s
    /\ (recognition env_not_understood = Transcript s
        \/ (sentinel s /\ startswith [LBRACKET] s = true)).
Proof.
  apply (transcribe_audio_returns env_not_understood note_wav fresh_world).
  - discriminate.
  - reflexivity.
  - exact I.
  - discriminate.
Defined.

(** C2 as stated fails: when no temp file can be created, the call raises
    [OSError] to its caller. *)
Lemma transcribe_audio_raises_without_temp_file :
  fst (transcribe_audio env_no_temp note_wav fresh_world) = Raise OSError.
Proof. vm_compute. reflexivity. Qed.

(** C3, amended.  When the conversion of an upload that is no .wav file
    fails, [transcribe_audio] returns exactly the sentinel that names
    pydub and ffmpeg. *)
Theorem conversion_failure_sentinel env name data w :
  have_speech_recognition env = true ->
  temp_name env <> None ->
  temp_write_ok env = true ->
  lower (splitext_ext name) <> lit ".wav" ->
  conversion env <> Converted ->
  fst (transcribe_audio env (UploadedFile name data) w)
  = Ok (lit "[Failed to convert audio — ensure pydub and ffmpeg are installed]").
Proof.
  intros Hsr Htmp Hwr Hsfx%str_eqb_neq Hconv.
  unfold transcribe_audio, import_speech_recognition, NamedTemporaryFile_write,
    pydub_convert.
  destruct (temp_name env) as [base|]; [clear Htmp | congruence].
  rewrite Hsr, Hwr, Hsfx. destruct w as [ss csv tmp scr].
  destruct (conversion env) as [| | |[|]]; try congruence; exec; reflexivity.
Qed.

Lemma conversion_failure_sentinel_witness :
  fst (transcribe_audio env_no_pydub note_mp3 fresh_world)
  = Ok (lit "[Failed to convert audio — ensure pydub and ffmpeg are installed]").
Proof.
  apply (conversion_failure_sentinel env_no_pydub (lit "note.mp3") [] fresh_world).
  - reflexivity.
  - discriminate.
  - reflexivity.
  - vm_compute. discriminate.
  - discriminate.
Defined.

(** C3 as stated fails: with pydub missing and an mp3 uploaded, the
    string returned is not the one of the claim. *)
Lemma conversion_failure_sentinel_differs :
  fst (transcribe_audio env_no_pydub note_mp3 fresh_world)
  <> Ok (lit "[Failed to convert audio — ensure dependencies are installed]").
Proof. vm_compute. discriminate. Qed.

End Transcriber.

(** ** What a computation leaves untouched *)

Section Keeps.

Context (P : World -> Prop).

Lemma keeps_ret {A} (a : A) : keeps P (ret a).
Proof. intros w H. exact H. Qed.

Lemma keeps_raise {A} e : keeps P (@raise A e).
Proof. intros w H. exact H. Qed.

Lemma keeps_reader {A} (m : M A) : (forall w, snd (m w) = w) -> keeps P m.
Proof. intros E w H. now rewrite E. Qed.

Lemma keeps_bind {A B} (m : M A) (k : A -> M B) :
  keeps P m -> (forall a, keeps P (k a)) -> keeps P (bind m k).
Proof.
  intros Hm Hk w H. unfold bind. specialize (Hm w H).
  destruct (m w) as [[a|e] w']; simpl in *; [now apply Hk | exact Hm].
Qed.

Lemma keeps_try_except {A} (body : M A) handler :
  keeps P body -> (forall e, keeps P (handler e)) -> keeps P (try_except body handler).
Proof.
  intros Hb Hh w H. unfold try_except. specialize (Hb w H).
  destruct (body w) as [[a|e] w']; simpl in *; [exact Hb|].
  destruct (is_Exception e); [now apply Hh | exact Hb].
Qed.

Lemma keeps_try_finally {A} (body : M A) cleanup :
  keeps P body -> keeps P cleanup -> keeps P (try_finally body cleanup).
Proof.
  intros Hb Hc w H. unfold try_finally. specialize (Hb w H).
  destruct (body w) as [r w']; simpl in *. specialize (Hc w' Hb).
  now destruct (cleanup w') as [[u|e] w''].
Qed.

Lemma keeps_when b m : keeps P m -> keeps P (when b m).
Proof. intros Hm. destruct b; [exact Hm | apply keeps_ret]. Qed.

Lemma keeps_for_each {A} (l : list A) body :
  (forall x, keeps P (body x)) -> keeps P (for_each l body).
Proof.
  intros Hb. induction l as [|x l IH]; simpl; [apply keeps_ret|].
  apply keeps_bind; auto.
Qed.

Lemma keeps_put_tmp fs : ignores_tmp P -> keeps P (put_tmp fs).
Proof. intros Hi w H. now apply Hi. Qed.

Lemma keeps_put_csv f : ignores_csv P -> keeps P (put_csv f).
Proof. intros Hi w H. now apply Hi. Qed.

Lemma keeps_show_any ev : ignores_screen P -> keeps P (show ev).
Proof. intros Hi w H. now apply Hi. Qed.

End Keeps.

Lemma get_tmp_reads w : snd (get_tmp w) = w.
Proof. reflexivity. Qed.

Lemma get_csv_reads w : snd (get_csv w) = w.
Proof. reflexivity. Qed.

Lemma lift_reads {A} (r : result A) w : snd (lift r w) = w.
Proof. reflexivity. Qed.

Lemma session_get_reads key w : snd (session_get key w) = w.
Proof. unfold session_get. now destruct (session_state w !! key). Qed.

Lemma session_contains_reads key w : snd (session_contains key w) = w.
Proof. reflexivity. Qed.

Lemma global_reads name w : snd (global name w) = w.
Proof. unfold global. now destruct (existsb _ _). Qed.

(** One step of a proof that a computation keeps a predicate: the shape of
    the computation picks the lemma. *)
Ltac keeps_step :=
  lazymatch goal with
  | |- keeps _ (bind _ _) => apply keeps_bind; [|intros ?]
  | |- keeps _ (ret _) => apply keeps_ret
  | |- keeps _ pass => apply keeps_ret
  | |- keeps _ (raise _) => apply keeps_raise
  | |- keeps _ (when _ _) => apply keeps_when
  | |- keeps _ (try_except _ _) => apply keeps_try_except; [|intros ?]
  | |- keeps _ (try_finally _ _) => apply keeps_try_finally
  | |- keeps _ (for_each _ _) => apply keeps_for_each; intros ?
  | |- keeps _ get_tmp => apply keeps_reader, get_tmp_reads
  | |- keeps _ get_csv => apply keeps_reader, get_csv_reads
  | |- keeps _ (lift _) => apply keeps_reader, lift_reads
  | |- keeps _ (session_get _) => apply keeps_reader, session_get_reads
  | |- keeps _ (session_contains _) => apply keeps_reader, session_contains_reads
  | |- keeps _ (global _) => apply keeps_reader, global_reads
  | |- keeps _ (put_tmp _) => apply keeps_put_tmp; assumption
  | |- keeps _ (put_csv _) => apply keeps_put_csv; assumption
  | |- keeps _ (show _) => apply keeps_show_any; assumption
  | |- keeps _ (if ?b then _ else _) => destruct b
  | |- keeps _ (match ?x with _ => _ end) => destruct x
  | |- keeps _ (let '(_, _) := ?x in _) => destruct x
  end.

Section KeepsProgram.

Lemma transcribe_audio_keeps P env up :
  ignores_tmp P -> keeps P (transcribe_audio env up).
Proof.
  intros Hi.
  unfold transcribe_audio, import_speech_recognition, NamedTemporaryFile_write,
    pydub_convert, recognize, os_remove.
  repeat keeps_step.
Qed.

Lemma load_entries_keeps P : keeps P load_entries.
Proof. unfold load_entries. repeat keeps_step. Qed.

Lemma save_entry_keeps P now mood tags notes :
  ignores_csv P -> keeps P (save_entry now mood tags notes).
Proof. intros Hi. unfold save_entry, initialize_csv. repeat keeps_step. Qed.

End KeepsProgram.

(** ** The voice-recording path *)

Section VoicePath.

Lemma ignores_tmp_voice : ignores_tmp no_voice_transcription.
Proof. intros w fs H. exact H. Qed.

Lemma ignores_csv_voice : ignores_csv no_voice_transcription.
Proof. intros w f H. exact H. Qed.

Lemma keeps_show_other ev :
  ev <> voice_spinner -> keeps no_voice_transcription (show ev).
Proof.
  intros Hne w [H1 H2]. split; [exact H1|]. simpl.
  rewrite in_app_iff. intros [H|[H|[]]]; [tauto | congruence].
Qed.

Lemma keeps_unset_voice :
  keeps no_voice_transcription (session_set "voice_recorded" (VBool false)).
Proof.
  intros w [H1 H2]. split; [|exact H2]. intros v. simpl.
  rewrite lookup_insert_eq. now intros [= <-].
Qed.

Lemma keeps_set_bytes v :
  keeps no_voice_transcription (session_set "recorded_audio_bytes" v).
Proof.
  intros w [H1 H2]. split; [|exact H2]. intros v'. simpl.
  rewrite lookup_insert_ne by discriminate. apply H1.
Qed.

Ltac not_voice_spinner :=
  unfold voice_spinner;
  first [ discriminate
        | let H := fresh in intros [= H]; vm_compute in H; discriminate H ].

(** While [voice_recorded] is absent or [False], the transcription step
    does not enter the branch of the recorded voice note. *)
Lemma transcribe_step_keeps env wd :
  keeps no_voice_transcription (transcribe_step env wd).
Proof.
  unfold transcribe_step. destruct (uploaded_audio wd) as [[name data]|].
  - apply keeps_bind; [apply keeps_show_other; not_voice_spinner | intros _].
    apply transcribe_audio_keeps, ignores_tmp_voice.
  - intros w [H1 H2]. unfold bind, session_get.
    destruct (session_state w !! "voice_recorded"%string) as [v|] eqn:E.
    + rewrite (H1 v E). simpl. now split.
    + simpl. now split.
Qed.

Ltac voice_step :=
  first [ apply keeps_unset_voice
        | apply keeps_set_bytes
        | apply keeps_show_other; not_voice_spinner
        | apply transcribe_step_keeps
        | apply load_entries_keeps
        | apply save_entry_keeps, ignores_csv_voice
        | keeps_step ].

Lemma main_keeps env wd : keeps no_voice_transcription (main env wd).
Proof.
  unfold main, on_submit, combine_notes, sidebar. repeat voice_step.
Qed.

Lemma reachable_never_recorded w :
  reachable w -> never_recorded w /\ screen w = [].
Proof.
  induction 1 as [csv tmp | env wd w _ [IH1 IH2]].
  - split; [|reflexivity]. intros v. simpl. now rewrite lookup_empty.
  - split; [|reflexivity].
    assert (H : no_voice_transcription w) by (split; [exact IH1 | now rewrite IH2]).
    apply (main_keeps env wd) in H. apply H.
Qed.

Lemma record_button_raises env wd w :
  record_btn wd = true ->
  fst (main env wd w) = Raise (NameError "RTCConfiguration").
Proof.
  intros Hb. unfold main. rewrite Hb.
  change (global "RTCConfiguration") with (@raise unit (NameError "RTCConfiguration")).
  destruct w as [ss csv tmp scr].
  cbv beta iota zeta delta [bind session_contains when session_set pass ret raise negb fst snd
                            session_state csv_file tmp_files screen].
  repeat (case_bool_decide; cbv beta iota); reflexivity.
Qed.

(** C9.  In every world a session can reach, [voice_recorded] is absent
    or [False]; pressing the Record Note button ends the run with
    [NameError], the name [RTCConfiguration] being bound nowhere; and no
    run enters the branch that transcribes the recorded voice note: its
    spinner is never on the page. *)
Theorem voice_path_unreachable w :
  reachable w ->
  never_recorded w
  /\ (forall env wd,
        record_btn wd = true ->
        fst (main env wd w) = Raise (NameError "RTCConfiguration"))
  /\ (forall env wd, ~ In voice_spinner (screen (snd (main env wd w)))).
Proof.
  intros [H1 H2]%reachable_never_recorded. split; [exact H1|]. split.
  - intros env wd. apply record_button_raises.
  - intros env wd.
    assert (H : no_voice_transcription w) by (split; [exact H1 | now rewrite H2]).
    apply (main_keeps env wd) in H. apply H.
Qed.

Lemma voice_path_unreachable_witness :
  never_recorded (run env_ok wd_record fresh_world)
  /\ (forall env wd,
        record_btn wd = true ->
        fst (main env wd (run env_ok wd_record fresh_world))
        = Raise (NameError "RTCConfiguration"))
  /\ (forall env wd,
        ~ In voice_spinner (screen (snd (main env wd (run env_ok wd_record fresh_world))))).
Proof.
  apply (voice_path_unreachable (run env_ok wd_record fresh_world)).
  apply reach_run. apply (reach_start None ∅).
Defined.

End VoicePath.

(** ** Form controller: the submit handler *)

Section Submit.

Ltac exec_submit :=
  cbv beta iota zeta delta
      [on_submit combine_notes save_entry initialize_csv bind ret raise pass when
       show get_csv put_csv session_set truthy negb andb];
  cbn [fst snd tmp_files session_state csv_file screen].

Lemma bind_run {A B} (m : M A) (k : A -> M B) w a w' :
  m w = (Ok a, w') -> bind m k w = k a w'.
Proof. intros H. unfold bind. now rewrite H. Qed.

Lemma transcribe_step_csv env wd w :
  csv_file (snd (transcribe_step env wd w)) = csv_file w.
Proof.
  set (P := fun w' : World => csv_file w' = csv_file w).
  assert (Ht : ignores_tmp P) by (intros w' fs H; exact H).
  assert (Hs : ignores_screen P) by (intros w' scr H; exact H).
  assert (H : keeps P (transcribe_step env wd)).
  { unfold transcribe_step. repeat keeps_step.
    all: apply transcribe_audio_keeps, Ht. }
  apply H. reflexivity.
Qed.

Lemma load_entries_csv w1 w2 :
  csv_file w1 = csv_file w2 -> fst (load_entries w1) = fst (load_entries w2).
Proof.
  intros E. unfold load_entries, bind, get_csv, lift, ret. rewrite E.
  destruct (csv_file w2) as [c|]; [|reflexivity].
  now destruct (Csv.reader c).
Qed.

(** A transcript that is neither empty nor bracketed is saved with the
    typed notes. *)
Lemma on_submit_success env wd all_tags w t :
  fst (transcribe_step env wd w) = Ok t ->
  t <> [] ->
  startswith [LBRACKET] t = false ->
  fst (on_submit env wd all_tags w) = Ok tt
  /\ csv_file (snd (on_submit env wd all_tags w))
     = appended (csv_file w) (entry_row env wd all_tags (with_voice_note (notes wd) t)).
Proof.
  intros Ht Hne Hb. pose proof (transcribe_step_csv env wd w) as Hcsv.
  destruct (transcribe_step env wd w) as [r [ss csv tmp scr]] eqn:E.
  simpl in Ht, Hcsv. subst r csv.
  unfold on_submit. cbv zeta. rewrite !(bind_run _ _ _ _ _ E). unfold appended, entry_row, with_voice_note.
  destruct t as [|c t]; [congruence|]. unfold combine_notes. rewrite Hb.
  destruct (notes wd) as [|n ns]; exec_submit;
    destruct (csv_file w); split; reflexivity.
Qed.

(** A bracketed transcription result is shown as a warning and the typed
    notes alone go on: they are saved when there are any. *)
Lemma on_submit_bracket env wd all_tags w t :
  fst (transcribe_step env wd w) = Ok t ->
  startswith [LBRACKET] t = true ->
  fst (on_submit env wd all_tags w) = Ok tt
  /\ In (Warning (lit "Audio transcription issue: " ++ t))
        (screen (snd (on_submit env wd all_tags w)))
  /\ csv_file (snd (on_submit env wd all_tags w))
     = (if truthy (notes wd)
        then appended (csv_file w) (entry_row env wd all_tags (notes wd))
        else csv_file w)
  /\ (notes wd = [] ->
      In (Warning (lit "Please add some notes (typed or voice/audio) before saving."))
         (screen (snd (on_submit env wd all_tags w)))).
Proof.
  intros Ht Hb. pose proof (transcribe_step_csv env wd w) as Hcsv.
  destruct (transcribe_step env wd w) as [r [ss csv tmp scr]] eqn:E.
  simpl in Ht, Hcsv. subst r csv.
  unfold on_submit. cbv zeta. rewrite !(bind_run _ _ _ _ _ E). unfold appended, entry_row.
  destruct t as [|c t]; [discriminate Hb|]. unfold combine_notes. rewrite Hb.
  destruct (notes wd) as [|n ns]; exec_submit.
  - repeat split; try reflexivity; intros; rewrite !in_app_iff; simpl; tauto.
  - destruct (csv_file w); exec_submit;
      (repeat split; try reflexivity;
       [rewrite !in_app_iff; simpl; tauto | discriminate]).
Qed.

(** Without a transcript and without typed notes nothing is saved. *)
Lemma on_submit_nothing env wd all_tags w :
  fst (transcribe_step env wd w) = Ok [] ->
  notes wd = [] ->
  fst (on_submit env wd all_tags w) = Ok tt
  /\ In (Warning (lit "Please add some notes (typed or voice/audio) before saving."))
        (screen (snd (on_submit env wd all_tags w)))
  /\ csv_file (snd (on_submit env wd all_tags w)) = csv_file w.
Proof.
  intros Ht Hn. pose proof (transcribe_step_csv env wd w) as Hcsv.
  destruct (transcribe_step env wd w) as [r [ss csv tmp scr]] eqn:E.
  simpl in Ht, Hcsv. subst r csv.
  unfold on_submit. cbv zeta. rewrite !(bind_run _ _ _ _ _ E). rewrite Hn. exec_submit.
  repeat split; try reflexivity. rewrite in_app_iff. simpl. tauto.
Qed.

(** C4.  On submit, a transcription result that is not empty and does not
    begin with a bracket is saved: after the typed notes, a blank line and
    the voice-note label when there are typed notes, alone when there are
    none.  A result that begins with a bracket is shown as a warning and
    is not appended: the typed notes are saved as they are, or nothing is
    when there are none. *)
Theorem submit_notes env wd all_tags w t :
  fst (transcribe_step env wd w) = Ok t ->
  t <> [] ->
  (startswith [LBRACKET] t = false ->
   (notes wd <> [] ->
    csv_file (snd (on_submit env wd all_tags w))
    = appended (csv_file w)
        (entry_row env wd all_tags
           (notes wd ++ [LF; LF] ++ lit "[Voice note]: " ++ t)))
   /\ (notes wd = [] ->
       csv_file (snd (on_submit env wd all_tags w))
       = appended (csv_file w) (entry_row env wd all_tags t)))
  /\ (startswith [LBRACKET] t = true ->
      In (Warning (lit "Audio transcription issue: " ++ t))
         (screen (snd (on_submit env wd all_tags w)))
      /\ (notes wd <> [] ->
          csv_file (snd (on_submit env wd all_tags w))
          = appended (csv_file w) (entry_row env wd all_tags (notes wd)))
      /\ (notes wd = [] ->
          csv_file (snd (on_submit env wd all_tags w)) = csv_file w)).
Proof.
  intros Ht Hne. split; intros Hb.
  - destruct (on_submit_success env wd all_tags w t Ht Hne Hb) as [_ E].
    unfold with_voice_note in E.
    split; intros Hn; rewrite E; destruct (notes wd); simpl; congruence.
  - destruct (on_submit_bracket env wd all_tags w t Ht Hb) as [_ [Hw [E _]]].
    split; [exact Hw|].
    split; intros Hn; rewrite E; destruct (notes wd); simpl; congruence.
Qed.

Lemma submit_notes_witness :
  csv_file (snd (on_submit env_ok wd_typed_and_audio (combined_tags wd_typed_and_audio)
                           fresh_world))
  = appended (csv_file fresh_world)
      (entry_row env_ok wd_typed_and_audio (combined_tags wd_typed_and_audio)
         (notes wd_typed_and_audio ++ [LF; LF] ++ lit "[Voice note]: " ++ lit "hello")).
Proof.
  destruct (submit_notes env_ok wd_typed_and_audio (combined_tags wd_typed_and_audio)
                         fresh_world (lit "hello")) as [H _].
  - vm_compute. reflexivity.
  - discriminate.
  - destruct (H eq_refl) as [H1 _]. apply H1. discriminate.
Defined.

(** C5.  On submit, when the notes that result are empty (nothing is
    typed, and the transcription gave nothing or a bracketed error) the
    validation warning is shown and the store is left as it was:
    [load_entries] returns what it returned before. *)
Theorem empty_submission_rejected env wd all_tags w t :
  fst (transcribe_step env wd w) = Ok t ->
  notes wd = [] ->
  t = [] \/ startswith [LBRACKET] t = true ->
  fst (on_submit env wd all_tags w) = Ok tt
  /\ In (Warning (lit "Please add some notes (typed or voice/audio) before saving."))
        (screen (snd (on_submit env wd all_tags w)))
  /\ csv_file (snd (on_submit env wd all_tags w)) = csv_file w
  /\ fst (load_entries (snd (on_submit env wd all_tags w))) = fst (load_entries w).
Proof.
  intros Ht Hn Hcase.
  assert (H : fst (on_submit env wd all_tags w) = Ok tt
              /\ In (Warning (lit "Please add some notes (typed or voice/audio) before saving."))
                    (screen (snd (on_submit env wd all_tags w)))
              /\ csv_file (snd (on_submit env wd all_tags w)) = csv_file w).
  { destruct Hcase as [-> | Hb].
    - now apply on_submit_nothing.
    - destruct (on_submit_bracket env wd all_tags w t Ht Hb) as [H1 [_ [H3 H4]]].
      rewrite Hn in H3. auto. }
  destruct H as [H1 [H2 H3]]. repeat split; auto using load_entries_csv.
Qed.

Lemma empty_submission_rejected_witness :
  fst (on_submit env_not_understood wd_audio_only [] fresh_world) = Ok tt
  /\ In (Warning (lit "Please add some notes (typed or voice/audio) before saving."))
        (screen (snd (on_submit env_not_understood wd_audio_only [] fresh_world)))
  /\ csv_file (snd (on_submit env_not_understood wd_audio_only [] fresh_world))
     = csv_file fresh_world
  /\ fst (load_entries (snd (on_submit env_not_understood wd_audio_only [] fresh_world)))
     = fst (load_entries fresh_world).
Proof.
  apply (empty_submission_rejected env_not_understood wd_audio_only [] fresh_world
           (lit "[Could not understand audio]")).
  - vm_compute. reflexivity.
  - reflexivity.
  - right. reflexivity.
Defined.

(** A transcript of the service comes back from [transcribe_audio] as it
    is when the file is a wav file or was converted. *)
Lemma transcribe_audio_transcript env name data w t :
  have_speech_recognition env = true ->
  temp_name env <> None ->
  temp_write_ok env = true ->
  lower (splitext_ext name) = lit ".wav" \/ conversion env = Converted ->
  recognition env = Transcript t ->
  fst (transcribe_audio env (UploadedFile name data) w) = Ok t.
Proof.
  intros Hsr Htmp Hwr Hconv Hrec.
  unfold transcribe_audio, import_speech_recognition, NamedTemporaryFile_write,
    pydub_convert, recognize, os_remove.
  destruct (temp_name env) as [base|]; [clear Htmp | congruence].
  rewrite Hsr, Hwr, Hrec. destruct w as [ss csv tmp scr].
  destruct (str_eqb (lower (splitext_ext name)) (lit ".wav")) eqn:E.
  - exec; split_ifs; reflexivity.
  - apply str_eqb_neq in E. destruct Hconv as [Hconv|Hconv]; [congruence|].
    rewrite Hconv. exec; split_ifs; reflexivity.
Qed.

(** C10.  A transcript that the service returns and that itself begins
    with a bracket comes back from the transcription step as a success,
    and the submit handler treats it as an error: it shows it as a warning
    and saves the typed notes without it, or nothing when nothing was
    typed. *)
Theorem bracket_transcript_discarded env wd all_tags w name data t :
  uploaded_audio wd = Some (name, data) ->
  have_speech_recognition env = true ->
  temp_name env <> None ->
  temp_write_ok env = true ->
  lower (splitext_ext name) = lit ".wav" \/ conversion env = Converted ->
  recognition env = Transcript t ->
  startswith [LBRACKET] t = true ->
  fst (transcribe_step env wd w) = Ok t
  /\ In (Warning (lit "Audio transcription issue: " ++ t))
        (screen (snd (on_submit env wd all_tags w)))
  /\ csv_file (snd (on_submit env wd all_tags w))
     = (if truthy (notes wd)
        then appended (csv_file w) (entry_row env wd all_tags (notes wd))
        else csv_file w).
Proof.
  intros Hup Hsr Htmp Hwr Hconv Hrec Hb.
  assert (Ht : fst (transcribe_step env wd w) = Ok t).
  { unfold transcribe_step. rewrite Hup. unfold bind at 1, show. cbn [fst snd].
    now apply transcribe_audio_transcript. }
  split; [exact Ht|].
  destruct (on_submit_bracket env wd all_tags w t Ht Hb) as [_ [Hw [E _]]].
  now split.
Qed.

Lemma bracket_transcript_discarded_witness :
  fst (transcribe_step env_bracket wd_typed_and_audio fresh_world)
  = Ok (lit "[laughter] so today went well")
  /\ In (Warning (lit "Audio transcription issue: " ++ lit "[laughter] so today went well"))
        (screen (snd (on_submit env_bracket wd_typed_and_audio
                                (combined_tags wd_typed_and_audio) fresh_world)))
  /\ csv_file (snd (on_submit env_bracket wd_typed_and_audio
                              (combined_tags wd_typed_and_audio) fresh_world))
     = (if truthy (notes wd_typed_and_audio)
        then appended (csv_file fresh_world)
               (entry_row env_bracket wd_typed_and_audio
                  (combined_tags wd_typed_and_audio) (notes wd_typed_and_audio))
        else csv_file fresh_world).
Proof.
  apply (bracket_transcript_discarded env_bracket wd_typed_and_audio
           (combined_tags wd_typed_and_audio) fresh_world (lit "note.wav") []).
  - reflexivity.
  - reflexivity.
  - discriminate.
  - reflexivity.
  - left. reflexivity.
  - reflexivity.
  - reflexivity.
Defined.

End Submit.

(* ===================================================================== *)
(** * Further properties of the code *)
(* ===================================================================== *)

(** ** Entry store: reading and creating *)

Section StoreMore.

(** X1.  [load_entries] changes nothing, whatever the store holds and
    whether the reader raises or not; it returns no entry when the store
    file is missing, when it is empty and when it holds the header only. *)
Theorem load_entries_read_only w :
  snd (load_entries w) = w
  /\ (csv_file w = None \/ csv_file w = Some [] \/ csv_file w = Some (Csv.writerow header) ->
      fst (load_entries w) = Ok []).
Proof.
  destruct w as [ss csv tmp scr]. unfold load_entries. exec. split.
  - destruct csv as [c|]; [destruct (Csv.reader c)|]; reflexivity.
  - intros [-> | [-> | ->]]; reflexivity.
Qed.

Lemma load_entries_read_only_witness :
  fst (load_entries fresh_world) = Ok [].
Proof.
  apply (proj2 (load_entries_read_only fresh_world)). left. reflexivity.
Defined.

(** X2.  When [initialize_csv] returns normally, the store file holds
    the header line if it was missing and is as it was if it existed, so
    a second call changes nothing; a store it created holds no entry. *)
Theorem initialize_csv_creates_once w :
  fst (initialize_csv w) = Ok tt ->
  csv_file (snd (initialize_csv w))
  = Some (match csv_file w with Some c => c | None => Csv.writerow header end)
  /\ snd (initialize_csv (snd (initialize_csv w))) = snd (initialize_csv w)
  /\ (csv_file w = None -> load_entries (snd (initialize_csv w))
                           = (Ok [], snd (initialize_csv w))).
Proof.
  intros _. destruct w as [ss csv tmp scr]. unfold initialize_csv. exec.
  destruct csv as [c|]; exec; repeat split; discriminate.
Qed.

Lemma initialize_csv_creates_once_witness :
  csv_file (snd (initialize_csv fresh_world))
  = Some (match csv_file fresh_world with
          | Some c => c
          | None => Csv.writerow header
          end)
  /\ snd (initialize_csv (snd (initialize_csv fresh_world)))
     = snd (initialize_csv fresh_world)
  /\ (csv_file fresh_world = None ->
      load_entries (snd (initialize_csv fresh_world))
      = (Ok [], snd (initialize_csv fresh_world))).
Proof.
  apply (initialize_csv_creates_once fresh_world). reflexivity.
Defined.

End StoreMore.

(** ** Audio transcriber: outcomes, clean-up and what is left alone *)

Section TranscriberMore.

Lemma fst_bind {A B} (m : M A) (k : A -> M B) (Q : A -> Prop) r w :
  returns m Q -> (forall a w', Q a -> fst (k a w') = r) -> fst (bind m k w) = r.
Proof.
  intros Hm Hk. destruct (Hm w) as (a & Ha & HQ). unfold bind.
  destruct (m w) as [r' w']. simpl in Ha. subst r'. now apply Hk.
Qed.

Lemma fst_try_finally {A} (body : M A) cleanup w :
  returns cleanup (fun _ => True) ->
  fst (try_finally body cleanup w) = fst (body w).
Proof.
  intros Hc. unfold try_finally. destruct (body w) as [r w'].
  destruct (Hc w') as (u & Hu & _).
  destruct (cleanup w') as [[u'|e] w'']; simpl in *; congruence.
Qed.

Lemma keeps_bind_val {A B} P (m : M A) (k : A -> M B) (Q : A -> Prop) :
  keeps P m -> only_returns m Q -> (forall a, Q a -> keeps P (k a)) ->
  keeps P (bind m k).
Proof.
  intros Hm Hr Hk w H. unfold bind. specialize (Hm w H). specialize (Hr w).
  destruct (m w) as [[a|e] w']; simpl in *; [apply Hk; auto | exact Hm].
Qed.

Lemma create_keeps q x :
  keeps (in_tmp q) (fs <- get_tmp ;; put_tmp ({[x]} ∪ fs)).
Proof.
  intros w H. unfold in_tmp in *. destruct w. exec.
  apply elem_of_union. right. exact H.
Qed.

Lemma remove_keeps env q p : p <> q -> keeps (in_tmp q) (os_remove env p).
Proof.
  intros Hne w H. unfold os_remove, in_tmp in *. destruct w. exec.
  destruct (bool_decide _ && remove_ok env p); exec; [|exact H].
  apply elem_of_difference. split; [exact H|]. set_unfold. congruence.
Qed.

(** X3.  The library is missing: [transcribe_audio] returns its sentinel
    at once; no temp file is created and nothing else changes. *)
Theorem missing_library_sentinel env up w :
  have_speech_recognition env = false ->
  transcribe_audio env up w
  = (Ok (lit "[speech_recognition not available — install it in your environment]"), w).
Proof.
  intros H. unfold transcribe_audio, import_speech_recognition. rewrite H.
  destruct w as [ss csv tmp scr]. exec. reflexivity.
Qed.

Lemma missing_library_sentinel_witness :
  transcribe_audio env_no_library note_mp3 idle_world
  = (Ok (lit "[speech_recognition not available — install it in your environment]"),
     idle_world).
Proof.
  apply (missing_library_sentinel env_no_library note_mp3 idle_world).
  reflexivity.
Defined.

(** X4.  The write to the temp file is inside no [try]: when it fails,
    [transcribe_audio] raises [OSError] to its caller, and the temp file
    it created stays in the temp directory. *)
Theorem failed_write_raises_and_leaves_file env name data w base :
  have_speech_recognition env = true ->
  temp_name env = Some base ->
  temp_write_ok env = false ->
  transcribe_audio env (UploadedFile name data) w
  = (Raise OSError,
     mkWorld (session_state w) (csv_file w)
             ({[base ++ lower (splitext_ext name)]} ∪ tmp_files w) (screen w)).
Proof.
  intros Hsr Htmp Hwr.
  unfold transcribe_audio, import_speech_recognition, NamedTemporaryFile_write.
  rewrite Hsr, Htmp, Hwr. destruct w as [ss csv tmp scr]. exec. reflexivity.
Qed.

Lemma failed_write_raises_and_leaves_file_witness :
  transcribe_audio env_disk_full (UploadedFile (lit "note.mp3") []) idle_world
  = (Raise OSError,
     mkWorld (session_state idle_world) (csv_file idle_world)
             ({[lit "/tmp/tmpab12cd34" ++ lower (splitext_ext (lit "note.mp3"))]}
                ∪ tmp_files idle_world)
             (screen idle_world)).
Proof.
  apply (failed_write_raises_and_leaves_file env_disk_full (lit "note.mp3") []
           idle_world (lit "/tmp/tmpab12cd34")); reflexivity.
Defined.

(** X5.  Once the recognition is reached (the upload is a wav file or was
    converted), what [transcribe_audio] gives is decided by the service
    alone: its transcript as it is, one sentinel for each of the two
    errors of the library, the message of any other error inside the
    transcription-error sentinel; an interrupt from the keyboard is not
    caught and reaches the caller. *)
Theorem recognition_outcomes env name data w :
  have_speech_recognition env = true ->
  temp_name env <> None ->
  temp_write_ok env = true ->
  lower (splitext_ext name) = lit ".wav" \/ conversion env = Converted ->
  fst (transcribe_audio env (UploadedFile name data) w)
  = match recognition env with
    | Transcript text => Ok text
    | NotUnderstood => Ok (lit "[Could not understand audio]")
    | ServiceDown =>
      Ok (lit "[Speech recognition service unavailable — network required]")
    | Failed msg => Ok (lit "[Transcription error: " ++ msg ++ lit "]")
    | Interrupted => Raise KeyboardInterrupt
    end.
Proof.
  intros Hsr Htmp Hwr Hconv.
  destruct (temp_name env) as [base|] eqn:Etmp; [clear Htmp | congruence].
  unfold transcribe_audio.
  apply fst_bind with (Q := fun b => b = true).
  { intros w0. unfold import_speech_recognition. rewrite Hsr. exec. eauto. }
  intros imported w1 ->. cbv beta iota zeta delta [negb].
  apply fst_bind with (Q := fun _ => True).
  { eapply temp_file_returns; eassumption. }
  intros path w2 _.
  apply fst_bind with (Q := fun c => exists p, c = inl p).
  { intros w0. unfold pydub_convert.
    destruct (str_eqb (lower (splitext_ext name)) (lit ".wav")) eqn:E; [exec; eauto|].
    apply str_eqb_neq in E. destruct Hconv as [Hconv|Hconv]; [congruence|].
    rewrite Hconv. destruct w0. exec. eauto. }
  intros c w3 [p ->]. cbv beta iota.
  rewrite fst_try_finally by apply cleanup_returns.
  unfold try_except, recognize. destruct (recognition env); reflexivity.
Qed.

Lemma recognition_outcomes_witness :
  fst (transcribe_audio env_interrupted note_mp3 idle_world)
  = match recognition env_interrupted with
    | Transcript text => Ok text
    | NotUnderstood => Ok (lit "[Could not understand audio]")
    | ServiceDown =>
      Ok (lit "[Speech recognition service unavailable — network required]")
    | Failed msg => Ok (lit "[Transcription error: " ++ msg ++ lit "]")
    | Interrupted => Raise KeyboardInterrupt
    end.
Proof.
  apply (recognition_outcomes env_interrupted (lit "note.mp3") [] idle_world).
  - reflexivity.
  - discriminate.
  - reflexivity.
  - right. reflexivity.
Defined.

(** X6.  Once the recognition is reached and [os.remove] does its work,
    the temp file of the upload is gone when [transcribe_audio] ends, and
    so is the wav file of a conversion: after a transcript, after each
    sentinel, and also when the call ends with an exception that is not
    caught. *)
Theorem recognition_cleans_up env name data w base :
  have_speech_recognition env = true ->
  temp_name env = Some base ->
  temp_write_ok env = true ->
  (forall p, remove_ok env p = true) ->
  lower (splitext_ext name) = lit ".wav" \/ conversion env = Converted ->
  ~ in_tmp (base ++ lower (splitext_ext name))
      (snd (transcribe_audio env (UploadedFile name data) w))
  /\ (lower (splitext_ext name) <> lit ".wav" ->
      ~ in_tmp ((base ++ lower (splitext_ext name)) ++ lit ".wav")
          (snd (transcribe_audio env (UploadedFile name data) w))).
Proof.
  intros Hsr Htmp Hwr Hrm Hconv.
  exact (cleanup_after_recognition env name data w base Hsr Htmp Hwr Hrm Hconv).
Qed.

Lemma recognition_cleans_up_witness :
  ~ in_tmp (lit "/tmp/tmpab12cd34" ++ lower (splitext_ext (lit "note.mp3")))
      (snd (transcribe_audio env_interrupted note_mp3 idle_world))
  /\ (lower (splitext_ext (lit "note.mp3")) <> lit ".wav" ->
      ~ in_tmp ((lit "/tmp/tmpab12cd34" ++ lower (splitext_ext (lit "note.mp3")))
                  ++ lit ".wav")
          (snd (transcribe_audio env_interrupted note_mp3 idle_world))).
Proof.
  apply (recognition_cleans_up env_interrupted (lit "note.mp3") [] idle_world
           (lit "/tmp/tmpab12cd34")).
  - reflexivity.
  - reflexivity.
  - reflexivity.
  - reflexivity.
  - right. reflexivity.
Defined.

(** X7.  [transcribe_audio] touches the temp directory only: the session
    state, the store and the page are as they were, on every path. *)
Theorem transcribe_audio_frame env up w :
  session_state (snd (transcribe_audio env up w)) = session_state w
  /\ csv_file (snd (transcribe_audio env up w)) = csv_file w
  /\ screen (snd (transcribe_audio env up w)) = screen w.
Proof.
  apply (transcribe_audio_keeps
           (fun w' => session_state w' = session_state w
                      /\ csv_file w' = csv_file w
                      /\ screen w' = screen w)).
  - intros w' fs H. exact H.
  - repeat split.
Qed.

Lemma temp_file_only_returns env sfx v :
  only_returns (NamedTemporaryFile_write env sfx v)
               (fun p => exists base, temp_name env = Some base /\ p = base ++ sfx).
Proof.
  intros w a. unfold NamedTemporaryFile_write.
  destruct (temp_name env) as [base|]; [|exec; discriminate].
  destruct w. exec.
  destruct v; exec; try discriminate.
  destruct (temp_write_ok env); exec; [|discriminate].
  intros [= <-]. eauto.
Qed.

Lemma temp_file_keeps env sfx v q :
  keeps (in_tmp q) (NamedTemporaryFile_write env sfx v).
Proof.
  intros w H. unfold NamedTemporaryFile_write, in_tmp in *.
  destruct (temp_name env) as [base|]; [|exact H].
  destruct w. exec.
  destruct v; exec; try (apply elem_of_union; right; exact H).
  destruct (temp_write_ok env); exec; apply elem_of_union; right; exact H.
Qed.

(** X8.  [transcribe_audio] removes no file but its own: a file of the
    temp directory that is neither its input file nor the wav file next
    to it is still there when the call ends, on every path. *)
Theorem transcribe_audio_spares_other_files env name data w q :
  in_tmp q w ->
  (forall base, temp_name env = Some base ->
     q <> base ++ lower (splitext_ext name)
     /\ q <> (base ++ lower (splitext_ext name)) ++ lit ".wav") ->
  in_tmp q (snd (transcribe_audio env (UploadedFile name data) w)).
Proof.
  intros Hq Hother. revert w Hq.
  fold (keeps (in_tmp q) (transcribe_audio env (UploadedFile name data))).
  unfold transcribe_audio.
  apply keeps_bind;
    [unfold import_speech_recognition; repeat keeps_step | intros imported].
  destruct (negb imported); [apply keeps_ret|]. cbv beta iota zeta.
  set (sfx := lower (splitext_ext name)) in *.
  eapply keeps_bind_val;
    [apply temp_file_keeps | apply temp_file_only_returns |].
  intros path (base & Hb & ->). destruct (Hother base Hb) as [Hn1 Hn2].
  apply keeps_bind_val
    with (Q := fun c => match c with
                        | inl p => p = base ++ sfx \/ p = (base ++ sfx) ++ lit ".wav"
                        | inr _ => True
                        end).
  - destruct (negb (str_eqb sfx (lit ".wav"))); [|apply keeps_ret].
    apply keeps_try_except; [|intros; apply keeps_ret].
    apply keeps_bind; [|intros; apply keeps_ret].
    unfold pydub_convert.
    destruct (conversion env) as [| | |[|]];
      first [ apply create_keeps
            | apply keeps_raise
            | apply keeps_bind;
              [apply keeps_when, create_keeps | intros; apply keeps_raise] ].
  - intros w c. destruct (negb (str_eqb sfx (lit ".wav")));
      [| exec; intros [= <-]; left; reflexivity].
    unfold pydub_convert. destruct w.
    destruct (conversion env) as [| | |[|]]; exec; intros [= <-]; auto.
  - intros [p|s] Hc; [|apply keeps_ret].
    apply keeps_try_finally.
    + unfold recognize. repeat keeps_step.
    + apply keeps_bind;
        [apply keeps_try_except; [apply remove_keeps; congruence | intros; apply keeps_ret]
        | intros _].
      apply keeps_when.
      apply keeps_try_except; [|intros; apply keeps_ret].
      apply remove_keeps. destruct Hc; congruence.
Qed.

Lemma transcribe_audio_spares_other_files_witness :
  in_tmp (lit "/tmp/other.txt")
         (snd (transcribe_audio env_ok (UploadedFile (lit "note.mp3") []) idle_world)).
Proof.
  apply (transcribe_audio_spares_other_files env_ok (lit "note.mp3") [] idle_world
           (lit "/tmp/other.txt")).
  - vm_compute. reflexivity.
  - intros base [= <-]. split; vm_compute; discriminate.
Defined.

End TranscriberMore.

(** ** Tags: what is saved and what gives nothing *)

Section TagsMore.

Lemma split_app sep a b :
  split sep (a ++ sep :: b) = split sep a ++ split sep b.
Proof.
  induction a as [|c a IH]; simpl.
  - now rewrite N.eqb_refl.
  - destruct (c =? sep); [now rewrite IH|].
    rewrite IH.
    destruct (split sep a) as [|t ts] eqn:E; [now elim (split_nonempty sep a)|].
    reflexivity.
Qed.

Lemma split_In sep s : forall t c, In t (split sep s) -> In c t -> In c s.
Proof.
  induction s as [|x r IH]; simpl; intros t c.
  - intros [<-|[]] [].
  - destruct (x =? sep).
    + intros [<-|Ht] Hc; [now elim Hc | right; eauto].
    + destruct (split sep r) as [|t0 ts] eqn:E.
      * intros [<-|[]] [<-|[]]. now left.
      * intros [<-|Ht] Hc.
        -- destruct Hc as [<-|Hc]; [now left | right]. apply (IH t0); simpl; auto.
        -- right. apply (IH t); simpl; auto.
Qed.

Lemma split_cover sep s c :
  In c s -> c = sep \/ exists t, In t (split sep s) /\ In c t.
Proof.
  induction s as [|x r IH]; simpl; [tauto|].
  intros Hc. destruct (x =? sep) eqn:Ex.
  - apply N.eqb_eq in Ex. destruct Hc as [<-|Hc]; [now left|].
    destruct (IH Hc) as [->|(t & Ht & Hct)]; [now left | right].
    exists t. simpl. auto.
  - destruct (split sep r) as [|t0 ts] eqn:E; [now elim (split_nonempty sep r)|].
    destruct Hc as [<-|Hc].
    + right. exists (x :: t0). simpl. auto.
    + destruct (IH Hc) as [->|(t & [<-|Ht] & Hct)]; [now left | right | right].
      * exists (x :: t0). simpl. auto.
      * exists t. simpl. auto.
Qed.

Lemma lstrip_nil_iff t :
  lstrip t = [] <-> (forall c, In c t -> is_space c = true).
Proof.
  induction t as [|x t IH]; simpl.
  - split; [intros _ c [] | reflexivity].
  - destruct (is_space x) eqn:Ex.
    + rewrite IH. split; [intros H c [<-|Hc]; auto | intros H c Hc; auto].
    + split; [discriminate | intros H]. rewrite (H x) in Ex; [discriminate | now left].
Qed.

Lemma strip_nil_iff t :
  strip t = [] <-> (forall c, In c t -> is_space c = true).
Proof.
  unfold strip. rewrite rstrip_rev. split.
  - intros H. apply lstrip_nil_iff.
    assert (H1 : lstrip (rev (lstrip t)) = []).
    { destruct (lstrip (rev (lstrip t))) as [|y l]; [reflexivity|].
      apply (f_equal (@length N)) in H. rewrite length_rev in H. discriminate H. }
    rewrite lstrip_nil_iff in H1.
    rewrite <- lstrip_idem. apply lstrip_nil_iff.
    intros c Hc. apply H1. now apply in_rev in Hc.
  - intros H. apply lstrip_nil_iff in H. rewrite H. reflexivity.
Qed.

Lemma tags_of_nil_iff s :
  tags_of s = [] <-> (forall t, In t (split COMMA s) -> strip t = []).
Proof.
  unfold tags_of. split.
  - intros H t Ht.
    destruct (strip t) as [|y l] eqn:E; [reflexivity|].
    assert (Hin : In (y :: l) (List.filter truthy (List.map strip (split COMMA s)))).
    { apply List.filter_In. split; [|reflexivity].
      rewrite <- E. now apply in_map. }
    destruct (List.filter truthy (List.map strip (split COMMA s))); [now elim Hin|].
    discriminate H.
  - intros H. induction (split COMMA s) as [|t ts IH]; [reflexivity|].
    simpl. rewrite (H t) by now left. simpl. apply IH.
    intros t' Ht'. apply H. now right.
Qed.

Lemma join_tags_nil ps : Forall tag ps -> join (lit ", ") ps = [] -> ps = [].
Proof.
  intros H. destruct ps as [|p ps]; [reflexivity|].
  inversion H as [|? ? (_ & Hp & _) _]; subst.
  destruct p as [|y p]; [congruence|]. destruct ps; discriminate.
Qed.

Lemma tags_of_app a b : tags_of (a ++ COMMA :: b) = tags_of a ++ tags_of b.
Proof.
  unfold tags_of.
  now rewrite split_app, List.map_app, List.filter_app, List.map_app.
Qed.

Lemma tags_of_space s : tags_of (SPACE :: s) = tags_of s.
Proof.
  unfold tags_of. cbn [split].
  replace (SPACE =? COMMA) with false by reflexivity.
  destruct (split COMMA s) as [|t ts] eqn:E; [now elim (split_nonempty COMMA s)|].
  cbn [List.map]. now rewrite (strip_cons_space SPACE t eq_refl).
Qed.

Lemma normalize_tags_tags_of s :
  normalize_tags (Some s) = join (lit ", ") (tags_of s).
Proof. apply normalize_tags_contract_eq. Qed.

(** X9.  [normalize_tags] gives the empty string exactly for the inputs
    that hold nothing but commas and whitespace. *)
Theorem normalize_tags_empty_iff s :
  normalize_tags (Some s) = [] <-> blank s.
Proof.
  rewrite normalize_tags_tags_of. split.
  - intros H. apply join_tags_nil in H; [|apply normalized_tokens_tag].
    rewrite tags_of_nil_iff in H.
    intros c Hc. destruct (split_cover COMMA s c Hc) as [->|(t & Ht & Hct)]; [now left|].
    right. apply (proj1 (strip_nil_iff t) (H t Ht)). exact Hct.
  - intros H.
    assert (E : tags_of s = []); [|now rewrite E].
    apply tags_of_nil_iff. intros t Ht. apply strip_nil_iff. intros c Hc.
    destruct (H c (split_In COMMA s t c Ht Hc)) as [->|Hs]; [|exact Hs].
    pose proof (split_no_sep COMMA s) as Hno.
    rewrite List.Forall_forall in Hno. now elim (Hno t Ht).
Qed.

Lemma normalize_tags_empty_iff_witness :
  normalize_tags (Some (lit " , ,  ")) = [].
Proof.
  apply (proj2 (normalize_tags_empty_iff (lit " , ,  "))).
  intros c Hc. vm_compute in Hc. vm_compute.
  intuition (subst; auto).
Defined.

(** X10.  The tags the form hands to [normalize_tags] are the selected
    stressors joined with the custom tags; what is saved is the tags of
    the stressors followed by the tags of the custom field, each with one
    marker, whichever of the two is empty. *)
Theorem combined_tags_normalized wd :
  normalize_tags (Some (combined_tags wd))
  = join (lit ", ")
      (tags_of (join (lit ", ") (selected_stressors wd)) ++ tags_of (custom_tags wd)).
Proof.
  rewrite normalize_tags_tags_of. f_equal. unfold combined_tags.
  assert (E0 : tags_of [] = []) by reflexivity.
  destruct (custom_tags wd) as [|c cs]; unfold truthy.
  - now rewrite E0, app_nil_r.
  - destruct (join (lit ", ") (selected_stressors wd)) as [|a l].
    + now rewrite E0.
    + change (lit ", " ++ c :: cs) with (COMMA :: SPACE :: c :: cs).
      now rewrite tags_of_app, tags_of_space.
Qed.

End TagsMore.

(** ** Sidebar: the recent entries *)

Section SidebarMore.

Lemma pad_four (r : Csv.row) :
  firstn 4 (r ++ repeat [] 4) = [nth 0 r []; nth 1 r []; nth 2 r []; nth 3 r []].
Proof. destruct r as [|a [|b [|c [|d r]]]]; reflexivity. Qed.

Lemma preview_length n : (length (preview n) <= 123)%nat.
Proof.
  unfold preview. rewrite length_app, length_firstn.
  assert (E : length (lit "...") = 3%nat) by reflexivity.
  destruct (120 <? length n)%nat;
    [rewrite E | change (length (@nil N)) with 0%nat]; lia.
Qed.

Lemma preview_short n : (length n <= 120)%nat -> preview n = n.
Proof.
  intros H. unfold preview. rewrite firstn_all2 by exact H.
  replace (120 <? length n)%nat with false; [apply app_nil_r|].
  symmetry. apply Nat.ltb_ge. exact H.
Qed.

Lemma shown_bounds wd entries :
  entries <> [] ->
  (1 <= shown wd entries <= 20)%nat /\ (shown wd entries <= length entries)%nat.
Proof.
  intros H. unfold shown. destruct entries; [congruence|]. simpl length. lia.
Qed.

(** What [sidebar] does, in one equation: the message of the empty
    store; the error of the slider for one entry, with nothing drawn; the
    cards of the last entries, the latest first, else. *)
Lemma sidebar_run wd entries w :
  sidebar wd entries w
  = (sidebar_outcome entries,
     mkWorld (session_state w) (csv_file w) (tmp_files w)
             (screen w ++ sidebar_events wd entries)).
Proof.
  unfold sidebar, sidebar_events, sidebar_outcome.
  destruct entries as [|e [|e2 es]]; [reflexivity | |].
  - destruct w. cbn. now rewrite app_nil_r.
  - cbv zeta.
    replace (Nat.min 20 (length (e :: e2 :: es)) <=? 1)%nat with false
      by (symmetry; apply Nat.leb_gt; simpl length; lia).
    fold (shown wd (e :: e2 :: es)). rewrite List.firstn_rev.
    generalize (rev (skipn (length (e :: e2 :: es) - shown wd (e :: e2 :: es))
                           (e :: e2 :: es))).
    intros cards. revert w. induction cards as [|r cards IH]; intros w.
    + destruct w. simpl. now rewrite app_nil_r.
    + cbn [for_each List.map]. unfold bind at 1. rewrite pad_four.
      cbv beta iota. unfold show at 1. rewrite IH.
      cbn [session_state csv_file tmp_files screen].
      rewrite <- app_assoc. reflexivity.
Qed.

(** X11.  With at least two entries in the store, [sidebar] returns and
    adds to the page exactly the cards of the last entries, the latest
    first: at least one, at most twenty and at most as many as there are
    entries, as many as the slider says between these bounds; it changes
    nothing else. *)
Theorem sidebar_shows_latest wd entries w :
  (2 <= length entries)%nat ->
  exists cards,
    sidebar wd entries w
    = (Ok tt, mkWorld (session_state w) (csv_file w) (tmp_files w) (screen w ++ cards))
    /\ cards = List.map card_of (firstn (shown wd entries) (rev entries))
    /\ hd_error cards = Some (card_of (List.last entries []))
    /\ length cards = shown wd entries
    /\ (1 <= length cards <= 20)%nat
    /\ (length cards <= length entries)%nat.
Proof.
  intros H2.
  assert (Hne : entries <> []) by (destruct entries; [simpl in H2; lia | discriminate]).
  destruct (shown_bounds wd entries Hne) as [[H1 H20] Hlen].
  exists (List.map card_of (firstn (shown wd entries) (rev entries))).
  assert (Hcount : length (List.map card_of (firstn (shown wd entries) (rev entries)))
                   = shown wd entries).
  { rewrite length_map, length_firstn, length_rev. lia. }
  split; [|split; [reflexivity|split; [|split; [exact Hcount|rewrite Hcount; lia]]]].
  - rewrite sidebar_run. unfold sidebar_events, sidebar_outcome.
    destruct entries as [|e [|e2 es]]; [simpl in H2; lia | simpl in H2; lia | reflexivity].
  - destruct (shown wd entries) as [|k]; [lia|].
    destruct (exists_last Hne) as (l & x & ->).
    rewrite rev_app_distr, last_last. reflexivity.
Qed.

Lemma sidebar_shows_latest_witness :
  exists cards,
    sidebar wd_idle [older_entry; one_entry] two_entries_world
    = (Ok tt, mkWorld (session_state two_entries_world) (csv_file two_entries_world)
                      (tmp_files two_entries_world) (screen two_entries_world ++ cards))
    /\ cards = List.map card_of (firstn (shown wd_idle [older_entry; one_entry])
                                        (rev [older_entry; one_entry]))
    /\ hd_error cards = Some (card_of (List.last [older_entry; one_entry] []))
    /\ length cards = shown wd_idle [older_entry; one_entry]
    /\ (1 <= length cards <= 20)%nat
    /\ (length cards <= length [older_entry; one_entry])%nat.
Proof.
  apply (sidebar_shows_latest wd_idle [older_entry; one_entry] two_entries_world).
  simpl. lia.
Defined.

(** X12.  Whatever the store holds, what [sidebar] adds to the page are
    cards that carry at most 123 characters of notes (120 and the
    ellipsis), or the message of the empty store when there is no entry.
    With exactly one entry the slider raises and no card is drawn; with
    two or more, a shown entry whose notes are at most 120 characters long
    has them whole on its card. *)
Theorem sidebar_preview_bounded wd entries w :
  exists cards,
    screen (snd (sidebar wd entries w)) = screen w ++ cards
    /\ Forall (fun ev =>
                 match ev with
                 | SidebarCard _ _ _ n => (length n <= 123)%nat
                 | SidebarInfo _ => entries = []
                 | _ => False
                 end) cards
    /\ (length entries = 1%nat ->
        cards = [] /\ fst (sidebar wd entries w) = Raise StreamlitInvalidMinMaxError)
    /\ ((2 <= length entries)%nat ->
        forall r, In r (firstn (shown wd entries) (rev entries)) ->
                  (length (nth 3 r []) <= 120)%nat ->
                  In (SidebarCard (nth 0 r []) (nth 1 r []) (nth 2 r []) (nth 3 r [])) cards).
Proof.
  rewrite sidebar_run. cbn [fst snd screen]. eexists. split; [reflexivity|].
  unfold sidebar_events, sidebar_outcome. destruct entries as [|e [|e2 es]].
  - split; [repeat constructor|]. split; simpl; intros; [discriminate | lia].
  - split; [constructor|]. split; [now split | simpl; lia].
  - split; [|split; [simpl; intros; lia|]].
    + apply List.Forall_forall. intros ev Hev.
      apply in_map_iff in Hev as (r & <- & _). apply preview_length.
    + intros _ r Hr Hshort. apply in_map_iff. exists r. split; [|exact Hr].
      unfold card_of. now rewrite preview_short.
Qed.

End SidebarMore.

(** ** Form controller: whole runs of the script *)

Section MainMore.

Lemma bind_raise {A B} (m : M A) (k : A -> M B) w e w' :
  m w = (Raise e, w') -> bind m k w = (Raise e, w').
Proof. intros H. unfold bind. now rewrite H. Qed.

Lemma session_get_run key v w :
  session_state w !! key = Some v -> session_get key w = (Ok v, w).
Proof. intros H. unfold session_get. now rewrite H. Qed.

Lemma when_show_run b ev w :
  when b (show ev) w
  = (Ok tt, mkWorld (session_state w) (csv_file w) (tmp_files w)
                    (screen w ++ if b then [ev] else [])).
Proof. destruct w, b; simpl; [reflexivity | now rewrite app_nil_r]. Qed.

(** The head of [main]: the two keys are put into the session state when
    they are missing, and the rest of the script runs in that world. *)
Lemma init_run {B} (k : unit -> M B) w :
  (has <- session_contains "voice_recorded" ;;
   when (negb has) (session_set "voice_recorded" (VBool false)) ;;;
   has <- session_contains "recorded_audio_bytes" ;;
   bind (when (negb has) (session_set "recorded_audio_bytes" VNone)) k) w
  = k tt (initialised w).
Proof.
  destruct w as [ss csv tmp scr]. unfold initialised, init_session.
  cbv beta iota zeta delta
      [bind session_contains when session_set pass ret negb fst snd
       session_state csv_file tmp_files screen].
  destruct (bool_decide (is_Some (ss !! "voice_recorded"%string))); cbv beta iota;
    match goal with
    | |- context [bool_decide ?P] => destruct (bool_decide P)
    end; reflexivity.
Qed.

Lemma initialised_keys w : keys_present (initialised w).
Proof.
  unfold keys_present, initialised, init_session. cbn [session_state].
  repeat case_bool_decide; split;
    first [ assumption
          | repeat (apply lookup_insert_is_Some'; first [left; reflexivity | right]);
            assumption ].
Qed.

Lemma initialised_voice w v :
  session_state w !! "voice_recorded"%string = Some v ->
  session_state (initialised w) !! "voice_recorded"%string = Some v.
Proof.
  intros H. unfold initialised, init_session. cbn [session_state].
  assert (Hs : is_Some (session_state w !! "voice_recorded"%string)) by eauto.
  rewrite (bool_decide_eq_true_2 _ Hs).
  case_bool_decide; [exact H|]. now rewrite lookup_insert_ne by discriminate.
Qed.

Lemma initialised_never_recorded w :
  never_recorded w ->
  session_state (initialised w) !! "voice_recorded"%string = Some (VBool false).
Proof.
  intros H. destruct (session_state w !! "voice_recorded"%string) as [v|] eqn:E.
  - rewrite (initialised_voice w v E). f_equal. now apply H.
  - unfold initialised, init_session. cbn [session_state]. rewrite E.
    rewrite (bool_decide_eq_false_2 (is_Some (@None pyval))) by apply is_Some_None.
    case_bool_decide; [|rewrite lookup_insert_ne by discriminate];
      now rewrite lookup_insert_eq.
Qed.

(** *** What every run keeps *)

Section Frame.

Context (P : World -> Prop).
Hypothesis P_tmp : ignores_tmp P.
Hypothesis P_screen : ignores_screen P.
Hypothesis P_session : forall key v, keeps P (session_set key v).
Hypothesis P_save : forall now mood tags notes, keeps P (save_entry now mood tags notes).

Ltac frame_step :=
  first [ apply transcribe_audio_keeps; exact P_tmp
        | apply load_entries_keeps
        | apply P_save
        | apply P_session
        | keeps_step ].

Lemma on_submit_frame env wd all_tags : keeps P (on_submit env wd all_tags).
Proof.
  unfold on_submit, combine_notes, transcribe_step. repeat frame_step.
Qed.

Lemma main_frame env wd : keeps P (main env wd).
Proof.
  unfold main, sidebar.
  repeat first [apply on_submit_frame | frame_step].
Qed.

End Frame.

Lemma save_entry_extends c now mood tags notes :
  keeps (store_extends c) (save_entry now mood tags notes).
Proof.
  intros w [tail H]. destruct w as [ss csv tmp scr]. simpl in H. subst csv.
  unfold save_entry, initialize_csv, store_extends. exec.
  eexists. f_equal. symmetry. apply app_assoc.
Qed.

(** X13.  The store only grows: whatever a run of the script does (it may
    save an entry, it may raise), the text the store file held before is
    still the beginning of the text it holds after. *)
Theorem store_append_only env wd w c :
  csv_file w = Some c ->
  exists tail, csv_file (snd (main env wd w)) = Some (c ++ tail).
Proof.
  intros H.
  apply (main_frame (store_extends c)).
  - intros w' fs Hw. exact Hw.
  - intros w' scr Hw. exact Hw.
  - intros key v w' Hw. exact Hw.
  - intros. apply save_entry_extends.
  - exists []. now rewrite app_nil_r.
Qed.

Lemma store_append_only_witness :
  exists tail,
    csv_file (snd (main env_ok wd_typed_only idle_world))
    = Some ((Csv.writerow header ++ Csv.writerow one_entry) ++ tail).
Proof.
  apply (store_append_only env_ok wd_typed_only idle_world
           (Csv.writerow header ++ Csv.writerow one_entry)).
  reflexivity.
Defined.

(** X14.  A run in which Save is not pressed leaves the store and the
    temp directory as they are, whatever else is pressed and whether the
    run ends or raises. *)
Theorem run_without_save_stores_nothing env wd w :
  submitted wd = false ->
  csv_file (snd (main env wd w)) = csv_file w
  /\ tmp_files (snd (main env wd w)) = tmp_files w.
Proof.
  intros Hsub.
  set (P := fun w' : World => csv_file w' = csv_file w /\ tmp_files w' = tmp_files w).
  assert (Hs : ignores_screen P) by (intros w' scr H; exact H).
  assert (H : keeps P (main env wd)).
  { unfold main, sidebar. rewrite Hsub.
    change (when false (on_submit env wd (combined_tags wd))) with pass.
    repeat first [ apply load_entries_keeps
                 | match goal with
                   | |- keeps _ (session_set _ _) => intros w' Hw; exact Hw
                   end
                 | keeps_step ]. }
  apply H. split; reflexivity.
Qed.

Lemma run_without_save_stores_nothing_witness :
  csv_file (snd (main env_ok wd_record idle_world)) = csv_file idle_world
  /\ tmp_files (snd (main env_ok wd_record idle_world)) = tmp_files idle_world.
Proof.
  apply (run_without_save_stores_nothing env_ok wd_record idle_world).
  reflexivity.
Defined.

Lemma keys_present_set key v : keeps keys_present (session_set key v).
Proof.
  intros w [H1 H2]. unfold keys_present. cbn [session_set snd session_state].
  split; apply lookup_insert_is_Some'; now right.
Qed.

(** X15.  After every run of the script, ended or raised, the session
    state has both keys of the voice recording: the two assignments at
    the head of [main] cannot fail and nothing removes a key. *)
Theorem session_keys_after_run env wd w :
  keys_present (snd (main env wd w)).
Proof.
  unfold main. rewrite init_run. cbv beta.
  match goal with
  | |- keys_present (snd (?m (initialised w))) =>
    assert (H : keeps keys_present m)
  end.
  { assert (Ht : ignores_tmp keys_present) by (intros ? ? Hw; exact Hw).
    assert (Hs : ignores_screen keys_present) by (intros ? ? Hw; exact Hw).
    assert (Hc : ignores_csv keys_present) by (intros ? ? Hw; exact Hw).
    assert (Hsub : forall all_tags, keeps keys_present (on_submit env wd all_tags)).
    { intros. apply on_submit_frame; auto using keys_present_set.
      intros. now apply save_entry_keeps. }
    unfold sidebar.
    repeat first [ apply Hsub
                 | apply keys_present_set
                 | apply load_entries_keeps
                 | keeps_step ]. }
  apply H, initialised_keys.
Qed.

End MainMore.

(** ** Form controller: what a run saves and shows *)

Section RunsMore.

Ltac run_submit :=
  cbv beta iota zeta delta
      [on_submit combine_notes save_entry initialize_csv bind ret raise pass when
       show get_csv put_csv session_set truthy negb andb];
  cbn [fst snd tmp_files session_state csv_file screen].




(** With no transcription, typed notes are saved as they are. *)
Lemma on_submit_plain env wd all_tags w w1 :
  transcribe_step env wd w = (Ok [], w1) ->
  notes wd <> [] ->
  on_submit env wd all_tags w
  = (Ok tt,
     mkWorld (reset_voice (session_state w1))
             (appended (csv_file w1) (entry_row env wd all_tags (notes wd)))
             (tmp_files w1)
             (screen w1 ++
              [Success (lit "✨ Entry saved — good job taking a moment for yourself")])).
Proof.
  intros E Hn. unfold on_submit. cbv zeta. rewrite (bind_run _ _ _ _ _ E).
  destruct (notes wd) as [|c n] eqn:En; [congruence|].
  destruct w1 as [ss csv tmp scr]. unfold appended, entry_row, reset_voice.
  run_submit. destruct csv; reflexivity.
Qed.

(** X16.  The submit handler and the store.  When the transcription
    step raises, the handler raises the same exception and saves nothing.
    Whenever the handler returns normally, either the store is as it was
    or exactly one row was appended to it, whose notes are not empty. *)
Theorem submit_saves_one_row_or_nothing env wd all_tags w :
  (forall e,
     fst (transcribe_step env wd w) = Raise e ->
     fst (on_submit env wd all_tags w) = Raise e
     /\ csv_file (snd (on_submit env wd all_tags w)) = csv_file w)
  /\ (fst (on_submit env wd all_tags w) = Ok tt ->
      csv_file (snd (on_submit env wd all_tags w)) = csv_file w
      \/ exists n,
           n <> []
           /\ csv_file (snd (on_submit env wd all_tags w))
              = appended (csv_file w) (entry_row env wd all_tags n)).
Proof.
  pose proof (transcribe_step_csv env wd w) as Hcsv.
  destruct (transcribe_step env wd w) as [[t|e] w1] eqn:E; cbn [fst snd] in *.
  - split; [discriminate|]. intros _.
    assert (Ht : fst (transcribe_step env wd w) = Ok t) by now rewrite E.
    destruct t as [|c t].
    + destruct (notes wd) as [|x n] eqn:En.
      * destruct (on_submit_nothing env wd all_tags w Ht En) as (_ & _ & H3). auto.
      * assert (Hn : notes wd <> []) by (rewrite En; discriminate).
        rewrite (on_submit_plain env wd all_tags w w1 E Hn). cbn [fst snd csv_file].
        right. exists (notes wd). rewrite Hcsv. auto.
    + destruct (startswith [LBRACKET] (c :: t)) eqn:Hb.
      * destruct (on_submit_bracket env wd all_tags w _ Ht Hb) as (_ & _ & H3 & _).
        rewrite H3.
        destruct (notes wd) as [|x n] eqn:En; [now left|].
        right. exists (x :: n). split; [discriminate | reflexivity].
      * assert (Hne : c :: t <> []) by discriminate.
        destruct (on_submit_success env wd all_tags w _ Ht Hne Hb) as (_ & H2).
        right. exists (with_voice_note (notes wd) (c :: t)).
        split; [|exact H2]. unfold with_voice_note.
        destruct (notes wd); discriminate.
  - unfold on_submit. cbv zeta. rewrite (bind_raise _ _ _ _ _ E). cbn [fst snd].
    split; [intros e' [= <-]; auto | discriminate].
Qed.

Lemma submit_saves_one_row_or_nothing_witness :
  csv_file (snd (on_submit env_ok wd_typed_only [] idle_world)) = csv_file idle_world
  \/ exists n,
       n <> []
       /\ csv_file (snd (on_submit env_ok wd_typed_only [] idle_world))
          = appended (csv_file idle_world) (entry_row env_ok wd_typed_only [] n).
Proof.
  apply (proj2 (submit_saves_one_row_or_nothing env_ok wd_typed_only [] idle_world)).
  vm_compute. reflexivity.
Defined.




(** A run in which nothing is pressed, up to the sidebar. *)
Lemma idle_run env wd w rows :
  never_recorded w ->
  record_btn wd = false ->
  submitted wd = false ->
  holds (csv_file w) rows ->
  Forall fits rows ->
  main env wd w
  = (sidebar_outcome rows,
     mkWorld (init_session (session_state w)) (csv_file w) (tmp_files w)
             (screen w ++ upload_hint wd ++ sidebar_events wd rows)).
Proof.
  intros Hnr Hrec Hsub Hh Hfits.
  unfold main. rewrite init_run. cbv beta. rewrite Hrec, Hsub.
  erewrite bind_run by reflexivity. cbv beta.
  erewrite bind_run
    by (apply session_get_run, initialised_never_recorded, Hnr). cbv beta.
  erewrite bind_run by reflexivity. cbv beta.
  erewrite bind_run by apply when_show_run. cbv beta.
  erewrite bind_run by reflexivity. cbv beta.
  erewrite bind_run by (apply load_entries_holds with (rows := rows); assumption).
  cbv beta. rewrite sidebar_run.
  cbn [session_state csv_file tmp_files screen initialised].
  unfold upload_hint. now rewrite <- app_assoc.
Qed.

(** X18.  A run in which nothing is pressed, in a session where no voice
    note is recorded and over a store the program wrote.  Store and temp
    directory are as they were and the keys of the session are set.  With
    no entry or with two or more, the script returns and the page shows
    the hint of a selected upload, if any, followed by the sidebar; with
    exactly one entry the slider of the sidebar raises and the run ends
    with its error, no card drawn. *)
Theorem idle_run_renders env wd w rows :
  never_recorded w ->
  record_btn wd = false ->
  submitted wd = false ->
  holds (csv_file w) rows ->
  Forall fits rows ->
  (length rows <> 1%nat ->
   main env wd w
   = (Ok tt,
      mkWorld (init_session (session_state w)) (csv_file w) (tmp_files w)
              (screen w ++ upload_hint wd ++ sidebar_events wd rows)))
  /\ (length rows = 1%nat ->
      main env wd w
      = (Raise StreamlitInvalidMinMaxError,
         mkWorld (init_session (session_state w)) (csv_file w) (tmp_files w)
                 (screen w ++ upload_hint wd))).
Proof.
  intros Hnr Hrec Hsub Hh Hfits.
  rewrite (idle_run env wd w rows Hnr Hrec Hsub Hh Hfits).
  unfold sidebar_outcome, sidebar_events.
  destruct rows as [|r [|r2 rs]]; split; intros H; simpl in H;
    try lia; try reflexivity.
  now rewrite !app_nil_r.
Qed.

Lemma idle_run_renders_witness :
  (length [older_entry; one_entry] <> 1%nat ->
   main env_ok wd_idle two_entries_world
   = (Ok tt,
      mkWorld (init_session (session_state two_entries_world))
              (csv_file two_entries_world) (tmp_files two_entries_world)
              (screen two_entries_world ++ upload_hint wd_idle
               ++ sidebar_events wd_idle [older_entry; one_entry])))
  /\ (length [older_entry; one_entry] = 1%nat ->
      main env_ok wd_idle two_entries_world
      = (Raise StreamlitInvalidMinMaxError,
         mkWorld (init_session (session_state two_entries_world))
                 (csv_file two_entries_world) (tmp_files two_entries_world)
                 (screen two_entries_world ++ upload_hint wd_idle))).
Proof.
  apply (idle_run_renders env_ok wd_idle two_entries_world [older_entry; one_entry]).
  - intros v. vm_compute. now intros [= <-].
  - reflexivity.
  - reflexivity.
  - right. unfold written. cbn -[Csv.writerow header older_entry one_entry].
    now rewrite app_nil_r.
  - repeat constructor; vm_compute; discriminate.
Defined.

(** X19.  Were a voice note marked as recorded, the Clear button would
    show the status line, set [voice_recorded] to [False] and the bytes
    to [None], and end the run with the rerun exception of Streamlit,
    before the form is reached: nothing is saved. *)
Theorem clear_button_resets env wd w v :
  session_state w !! "voice_recorded"%string = Some v ->
  truthy_val v = true ->
  record_btn wd = false ->
  clear_btn wd = true ->
  main env wd w
  = (Raise RerunException,
     mkWorld (reset_voice (init_session (session_state w))) (csv_file w) (tmp_files w)
             (screen w ++ [Success (lit "✅ Voice note recorded successfully!")])).
Proof.
  intros Hv Ht Hrec Hclear.
  unfold main. rewrite init_run. cbv beta. rewrite Hrec, Hclear.
  erewrite bind_run by reflexivity. cbv beta.
  erewrite bind_run by (apply session_get_run, initialised_voice, Hv). cbv beta.
  rewrite Ht. erewrite bind_raise by reflexivity. reflexivity.
Qed.

Lemma clear_button_resets_witness :
  main env_ok wd_clear recorded_world
  = (Raise RerunException,
     mkWorld (reset_voice (init_session (session_state recorded_world)))
             (csv_file recorded_world) (tmp_files recorded_world)
             (screen recorded_world ++ [Success (lit "✅ Voice note recorded successfully!")])).
Proof.
  apply (clear_button_resets env_ok wd_clear recorded_world (VBool true)).
  - vm_compute. reflexivity.
  - reflexivity.
  - reflexivity.
  - reflexivity.
Defined.

End RunsMore.
